(** * n8n-nodes-oracle: the Oracle Database node

    A shallow embedding of [OracleDatabase.execute]
    (src/nodes/Oracle/OracleDatabase.node.ts) and the properties of its
    bind compiler, limit injector, result projector and connection
    handling.

    Conventions of the embedding.
    - A JavaScript string is a [string]: a sequence of characters whose
      code units lie in 0..255 (the Latin-1 range).
    - A JavaScript number is a [jsnum]: NaN, an infinity, or the decimal
      value [(-1)^neg * mant * 10^exp10] that the engine then rounds to
      the nearest double.  The rounding and the printing of doubles are
      not part of the embedding; the printing is the section variable
      [Number_toString].
    - The bind object [acc], created by the literal [{}] and used by the
      source as a map from names to bind parameters, is the
      [gmap string BindParameter] of its own properties; an assignment
      to the key [__proto__] changes the prototype of the object and
      none of its properties ([obj_set]).
    - [crypto.randomUUID] is a random source: [rng i] is the 128-bit
      value of the [i]-th draw of one invocation.
    - [String.prototype.replaceAll] is the method of the engine; the
      fallback the source installs where the method is missing is not
      embedded.
    - The host ([this], the credentials, the connection of module
      ./core/connection and the driver) is a record of outcomes, and a
      run of the node is a log of the calls made to the connection
      together with the value returned or the error raised. *)

From stdpp Require Import base strings list gmap pretty.
From Stdlib Require Import Ascii ZArith Lia.

Local Open Scope string_scope.
Local Open Scope list_scope.
Local Open Scope nat_scope.

(** ** Strings *)

Module Str.

Definition chr (c : ascii) : string := String c "".

Fixpoint mem (c : ascii) (s : string) : bool :=
  match s with
  | "" => false
  | String d s' => if Ascii.eqb c d then true else mem c s'
  end.

(** [starts_with pat s]: [pat] is a prefix of [s]. *)
Fixpoint starts_with (pat s : string) : bool :=
  match pat, s with
  | "", _ => true
  | String _ _, "" => false
  | String a pat', String b s' =>
      if Ascii.eqb a b then starts_with pat' s' else false
  end.

(** [occurs pat s]: [pat] is a substring of [s]. *)
Fixpoint occurs (pat s : string) : bool :=
  match s with
  | "" => starts_with pat ""
  | String _ s' => if starts_with pat s then true else occurs pat s'
  end.

(** [no_start pat pre rest]: in [pre +:+ rest], no occurrence of [pat]
    begins inside [pre]. *)
Fixpoint no_start (pat pre rest : string) : bool :=
  match pre with
  | "" => true
  | String _ pre' =>
      negb (starts_with pat (pre +:+ rest)) && no_start pat pre' rest
  end.

Fixpoint drop (n : nat) (s : string) : string :=
  match n, s with
  | 0, _ => s
  | S _, "" => ""
  | S n', String _ s' => drop n' s'
  end.

Fixpoint take (n : nat) (s : string) : string :=
  match n, s with
  | 0, _ => ""
  | S _, "" => ""
  | S n', String c s' => String c (take n' s')
  end.

(** [s.slice(0, -1)]: everything but the last character. *)
Definition slice_0_m1 (s : string) : string :=
  take (String.length s - 1) s.

(** [s.split(sep)] for a separator of one character. *)
Fixpoint split (sep : ascii) (s : string) : list string :=
  match s with
  | "" => [""]
  | String c s' =>
      if Ascii.eqb c sep then "" :: split sep s'
      else match split sep s' with
           | h :: t => String c h :: t
           | [] => [chr c]
           end
  end.

(** ECMA-262 GetSubstitution for a string pattern (no captures, no
    named groups): [$$] is a dollar, [$&] the matched text, [$`] the
    text before the match, [$'] the text after it; every other
    character, a dollar before a digit or [<] included, stands for
    itself. *)
Fixpoint GetSubstitution (matched str : string) (position : nat)
    (template : string) : string :=
  match template with
  | "" => ""
  | String c t =>
      if Ascii.eqb c "$" then
        match t with
        | "" => chr c
        | String d t' =>
            if Ascii.eqb d "$" then
              String "$" (GetSubstitution matched str position t')
            else if Ascii.eqb d "&" then
              matched +:+ GetSubstitution matched str position t'
            else if Ascii.eqb d "`" then
              take position str +:+ GetSubstitution matched str position t'
            else if Ascii.eqb d "'" then
              drop (position + String.length matched) str
                +:+ GetSubstitution matched str position t'
            else String c (GetSubstitution matched str position t)
        end
      else String c (GetSubstitution matched str position t)
  end.

(** [str.replaceAll(searchString, replaceValue)] with a string pattern
    (ECMA-262 22.1.3.19): the matches are found from left to right and
    do not overlap; [rest] is [str] from [pos] on and [skip] counts the
    characters of the current match still to pass. *)
Fixpoint replaceAll_from (searchString replaceValue str : string)
    (pos skip : nat) (rest : string) : string :=
  match rest with
  | "" =>
      match skip with
      | 0 => if starts_with searchString ""
             then GetSubstitution searchString str pos replaceValue
             else ""
      | S _ => ""
      end
  | String c rest' =>
      match skip with
      | S k => replaceAll_from searchString replaceValue str (S pos) k rest'
      | 0 =>
          if starts_with searchString rest then
            GetSubstitution searchString str pos replaceValue +:+
            match String.length searchString with
            | 0 => String c (replaceAll_from searchString replaceValue
                               str (S pos) 0 rest')
            | S k => replaceAll_from searchString replaceValue
                       str (S pos) k rest'
            end
          else
            String c (replaceAll_from searchString replaceValue
                        str (S pos) 0 rest')
      end
  end.

Definition replaceAll (searchString replaceValue str : string) : string :=
  replaceAll_from searchString replaceValue str 0 0 str.

End Str.

(** ** Numbers *)

Inductive jsnum : Type :=
| NaN
| Infinity (neg : bool)
| Finite (neg : bool) (mant : N) (exp10 : Z).

#[global] Instance jsnum_eq_dec : EqDecision jsnum.
Proof. solve_decision. Defined.

Module Num.

Definition code_in (lo hi : N) (c : ascii) : bool :=
  ((lo <=? N_of_ascii c) && (N_of_ascii c <=? hi))%N.

(** White space and line terminators of StringToNumber below U+0100:
    TAB, LF, VT, FF, CR, SP and NBSP. *)
Definition is_ws (c : ascii) : bool :=
  code_in 9 13 c || code_in 32 32 c || code_in 160 160 c.

Fixpoint trim_start (s : string) : string :=
  match s with
  | "" => ""
  | String c s' => if is_ws c then trim_start s' else s
  end.

Definition trim (s : string) : string :=
  String.rev (trim_start (String.rev (trim_start s))).

Definition digit_val (base : N) (c : ascii) : option N :=
  let n := N_of_ascii c in
  let v := if code_in 48 57 c then Some (n - 48)%N
           else if code_in 97 102 c then Some (n - 87)%N
           else if code_in 65 70 c then Some (n - 55)%N
           else None in
  match v with
  | Some d => if (d <? base)%N then Some d else None
  | None => None
  end.

Fixpoint digits_go (base acc : N) (s : string) : option N :=
  match s with
  | "" => Some acc
  | String c s' =>
      match digit_val base c with
      | Some d => digits_go base (acc * base + d)%N s'
      | None => None
      end
  end.

(** One or more digits of the base, and nothing else. *)
Definition digits (base : N) (s : string) : option N :=
  match s with
  | "" => None
  | _ => digits_go base 0%N s
  end.

(** The longest prefix of decimal digits, and what follows it. *)
Fixpoint span_digits (s : string) : string * string :=
  match s with
  | "" => ("", "")
  | String c s' =>
      if code_in 48 57 c
      then let '(d, r) := span_digits s' in (String c d, r)
      else ("", s)
  end.

(** ExponentPart, optional: [e] or [E], an optional sign, digits. *)
Definition exponent (s : string) : option Z :=
  match s with
  | "" => Some 0%Z
  | String c s' =>
      if Ascii.eqb c "e" || Ascii.eqb c "E" then
        match s' with
        | "" => None
        | String g s'' =>
            if Ascii.eqb g "-" then Z.opp <$> (Z.of_N <$> digits 10 s'')
            else if Ascii.eqb g "+" then Z.of_N <$> digits 10 s''
            else Z.of_N <$> digits 10 s'
        end
      else None
  end.

(** StrUnsignedDecimalLiteral. *)
Definition unsigned_decimal (neg : bool) (s : string) : option jsnum :=
  if String.eqb s "Infinity" then Some (Infinity neg) else
  let '(d1, r1) := span_digits s in
  match r1 with
  | String c r1' =>
      if Ascii.eqb c "." then
        let '(d2, r2) := span_digits r1' in
        if String.eqb (d1 +:+ d2) "" then None else
        e ← exponent r2;
        m ← digits_go 10 0%N (d1 +:+ d2);
        Some (Finite neg m (e - Z.of_nat (String.length d2)))
      else
        e ← exponent r1;
        m ← digits 10 d1;
        Some (Finite neg m e)
  | "" => m ← digits 10 d1; Some (Finite neg m 0)
  end.

(** NonDecimalIntegerLiteral: [0x], [0o], [0b] and their capitals. *)
Definition non_decimal (s : string) : option jsnum :=
  match s with
  | String z (String x ds) =>
      if Ascii.eqb z "0" then
        let base :=
          if Ascii.eqb x "x" || Ascii.eqb x "X" then Some 16%N
          else if Ascii.eqb x "o" || Ascii.eqb x "O" then Some 8%N
          else if Ascii.eqb x "b" || Ascii.eqb x "B" then Some 2%N
          else None in
        b ← base; m ← digits b ds; Some (Finite false m 0)
      else None
  | _ => None
  end.

(** StrDecimalLiteral: an optional sign and the unsigned literal. *)
Definition decimal (s : string) : option jsnum :=
  match s with
  | String c s' =>
      if Ascii.eqb c "-" then unsigned_decimal true s'
      else if Ascii.eqb c "+" then unsigned_decimal false s'
      else unsigned_decimal false s
  | "" => None
  end.

(** ECMA-262 StringToNumber: [Number(s)] for a string [s], as the decimal
    value the literal writes; the engine rounds it to the nearest double
    (beyond 2^53 not every integer is one, and a value out of range is
    an infinity or zero).  Whether the result is NaN does not depend on
    the rounding. *)
Definition StringToNumber (s : string) : jsnum :=
  let t := trim s in
  if String.eqb t "" then Finite false 0 0 else
  match non_decimal t with
  | Some n => n
  | None => default NaN (decimal t)
  end.

End Num.

(** ** Random identifiers *)

Module UUID.

Definition hex_digit (n : N) : ascii :=
  match N.to_nat (n mod 16) with
  | 0 => "0" | 1 => "1" | 2 => "2" | 3 => "3" | 4 => "4" | 5 => "5"
  | 6 => "6" | 7 => "7" | 8 => "8" | 9 => "9" | 10 => "a" | 11 => "b"
  | 12 => "c" | 13 => "d" | 14 => "e" | _ => "f"
  end.

(** The [k] low hexadecimal digits of [u], most significant first. *)
Fixpoint hex (k : nat) (u : N) : string :=
  match k with
  | 0 => ""
  | S k' => hex k' (u / 16) +:+ Str.chr (hex_digit u)
  end.

(** The text [crypto.randomUUID()] returns for the 128-bit value [u]:
    lower-case hexadecimal in groups of 8-4-4-4-12. *)
Definition to_string (u : N) : string :=
  hex 8 (N.shiftr u 96) +:+ "-" +:+ hex 4 (N.shiftr u 80) +:+ "-" +:+
  hex 4 (N.shiftr u 64) +:+ "-" +:+ hex 4 (N.shiftr u 48) +:+ "-" +:+
  hex 12 u.

End UUID.

(** ** Data model *)

(** [oracledb.NUMBER] and [oracledb.STRING]. *)
Inductive dbtype : Type := DB_NUMBER | DB_STRING.

(** A value of type [string | number]. *)
Inductive jsvalue : Type :=
| VStr (s : string)
| VNum (n : jsnum).

(** [oracledb.BindParameter], as the node builds it. *)
Record BindParameter : Type := { type : dbtype; val : jsvalue }.

#[global] Instance dbtype_eq_dec : EqDecision dbtype.
Proof. solve_decision. Defined.
#[global] Instance jsvalue_eq_dec : EqDecision jsvalue.
Proof. solve_decision. Defined.
#[global] Instance BindParameter_eq_dec : EqDecision BindParameter.
Proof. solve_decision. Defined.

(** One element of the node parameter [params.values]. *)
Record Param : Type := {
  name : string;
  value : jsvalue;
  datatype : string;
  parseInStatement : bool
}.

Inductive scalar : Type := SNull | SNum (n : jsnum) | SStr (s : string).

(** A row in [OUT_FORMAT_OBJECT]: column names and their values. *)
Definition Row : Type := list (string * scalar).

(** The result of [connection.execute]; [rows] and [metaData] are
    undefined for statements that return no rows. *)
Record Result : Type := {
  rows : option (list Row);
  metaData : option (list string);
  rowsAffected : option N
}.

Inductive IDataObject : Type :=
| ResultObject (r : Result)
| RowObject (r : Row).

Record INodeExecutionData : Type := { json : IDataObject }.

Inductive OutFormat : Type := OUT_FORMAT_ARRAY | OUT_FORMAT_OBJECT.

Record ExecuteOptions : Type := {
  outFormat : OutFormat;
  autoCommit : bool;
  extendedMetaData : bool
}.

Inductive jserror : Type :=
| Thrown (msg : string)
| NodeOperationError (cause : jserror).

Inductive outcome (A : Type) : Type :=
| Ok (a : A)
| Throw (e : jserror).
Arguments Ok {A} a.
Arguments Throw {A} e.

#[global] Instance scalar_eq_dec : EqDecision scalar.
Proof. solve_decision. Defined.
#[global] Instance Result_eq_dec : EqDecision Result.
Proof. solve_decision. Defined.
#[global] Instance IDataObject_eq_dec : EqDecision IDataObject.
Proof. solve_decision. Defined.
#[global] Instance INodeExecutionData_eq_dec : EqDecision INodeExecutionData.
Proof. solve_decision. Defined.
#[global] Instance OutFormat_eq_dec : EqDecision OutFormat.
Proof. solve_decision. Defined.
#[global] Instance ExecuteOptions_eq_dec : EqDecision ExecuteOptions.
Proof. solve_decision. Defined.
#[global] Instance jserror_eq_dec : EqDecision jserror.
Proof. solve_decision. Defined.
#[global] Instance outcome_eq_dec `{EqDecision A} : EqDecision (outcome A).
Proof. solve_decision. Defined.

(** What a connection does when asked: [conn_close] is the error
    [close()] rejects with, if any. *)
Record Connection : Type := {
  conn_execute :
    string → gmap string BindParameter → ExecuteOptions → outcome Result;
  conn_close : option jserror
}.

Record Credentials : Type := {
  user : string;
  password : string;
  connectionString : string;
  thinMode : bool
}.

(** The host: [this.getCredentials], [OracleConnection.getConnection]
    (module ./core/connection) and [this.getNodeParameter] for each of
    the four node parameters.  A connection that is [None] is a falsy
    value. *)
Record Host : Type := {
  getCredentials : outcome Credentials;
  getConnection : Credentials → outcome (option Connection);
  param_query : outcome string;
  param_params : outcome (option (list Param));
  param_includeMetadata : outcome bool;
  param_rowLimit : outcome Z
}.

Inductive Event : Type :=
| EvExecute (sql : string) (binds : gmap string BindParameter)
    (opts : ExecuteOptions)
| EvClose
| EvConsoleError (closeErr : jserror).

#[global] Instance Event_eq_dec : EqDecision Event.
Proof. solve_decision. Defined.

(** ** Effects: a log of events and an exception *)

Module Eff.

Definition M (A : Type) : Type := list Event → list Event * outcome A.

Definition ret {A} (a : A) : M A := λ log, (log, Ok a).

Definition bind {A B} (m : M A) (k : A → M B) : M B :=
  λ log, match m log with
         | (log', Ok a) => k a log'
         | (log', Throw e) => (log', Throw e)
         end.

Definition throw {A} (e : jserror) : M A := λ log, (log, Throw e).

Definition lift {A} (o : outcome A) : M A := λ log, (log, o).

Definition emit (ev : Event) : M unit := λ log, (log ++ [ev], Ok tt).

(** [try { m } catch (e) { handler e }] *)
Definition try_catch {A} (m : M A) (handler : jserror → M A) : M A :=
  λ log, match m log with
         | (log', Ok a) => (log', Ok a)
         | (log', Throw e) => handler e log'
         end.

(** [try { m } finally { fin }]: [fin] always runs, and what it throws
    replaces the outcome of [m]. *)
Definition try_finally {A} (m : M A) (fin : M unit) : M A :=
  λ log, match m log with
         | (log', r) =>
             match fin log' with
             | (log'', Ok _) => (log'', r)
             | (log'', Throw e) => (log'', Throw e)
             end
         end.

Definition run {A} (m : M A) : list Event * outcome A := m [].

End Eff.

Notation "'let*' x ':=' m 'in' k" := (Eff.bind m (λ x, k))
  (at level 10, x name, m at level 100, k at level 200, only parsing).

(** Closed goals about maps and strings are decided by evaluation. *)
Ltac by_compute := apply (bool_decide_unpack _); vm_compute; exact I.

(** ** The node *)

Section Node.

(** Number::toString of the engine, for [String(n)], [n.toString()] and
    template literals. *)
Variable Number_toString : jsnum → string.

(** [String(v)] and [v.toString()]. *)
Definition ToString (v : jsvalue) : string :=
  match v with
  | VStr s => s
  | VNum n => Number_toString n
  end.

(** [Number(v)]. *)
Definition ToNumber (v : jsvalue) : jsnum :=
  match v with
  | VStr s => Num.StringToNumber s
  | VNum n => n
  end.

Definition is_number (p : Param) : bool := String.eqb (datatype p) "number".

(** [param.datatype === "number" ? oracledb.NUMBER : oracledb.STRING] *)
Definition dataType (p : Param) : dbtype :=
  if is_number p then DB_NUMBER else DB_STRING.

(** [param.datatype === "number" ? Number(v) : String(v)] *)
Definition coerce (p : Param) (v : jsvalue) : jsvalue :=
  if is_number p then VNum (ToNumber v) else VStr (ToString v).

Definition bind_of (p : Param) (v : jsvalue) : BindParameter :=
  {| type := dataType p; val := coerce p v |}.

(** [o[k] = v] for an object [o] that began as the literal [{}] and an
    object [v].  The key [__proto__] is the accessor of
    [Object.prototype]: its setter makes [v] the prototype of [o] and
    adds no property.  Every other key becomes, or stays, an own
    property of [o]. *)
Definition obj_set (o : gmap string BindParameter) (k : string)
    (v : BindParameter) : gmap string BindParameter :=
  if String.eqb k "__proto__" then o else <[k := v]> o.

(** [crypto.randomUUID().replaceAll("-", "_")] for the drawn value. *)
Definition uniqueSuffix (u : N) : string :=
  Str.replaceAll "-" "_" (UUID.to_string u).

(** The [for] loop over [valuesArray]. *)
Fixpoint expand_loop (rng : nat → N) (p : Param)
    (valuesArray : list string) (acc : gmap string BindParameter)
    (inClause : string) (draws : nat)
  : gmap string BindParameter * string * nat :=
  match valuesArray with
  | [] => (acc, inClause, draws)
  | v :: valuesArray' =>
      let newParamName := name p +:+ uniqueSuffix (rng draws) in
      expand_loop rng p valuesArray'
        (obj_set acc newParamName (bind_of p (VStr v)))
        (inClause +:+ ":" +:+ newParamName +:+ ",")
        (S draws)
  end.

(** The state of the reduction: the accumulator, the variable [query]
    the callback assigns to, and the number of identifiers drawn. *)
Record cstate : Type := {
  acc : gmap string BindParameter;
  query : string;
  draws : nat
}.

(** The callback of [parameterList.reduce]. *)
Definition bind_step (rng : nat → N) (st : cstate) (p : Param) : cstate :=
  if negb (parseInStatement p) then
    {| acc := obj_set (acc st) (name p) (bind_of p (value p));
       query := query st;
       draws := draws st |}
  else
    let valuesArray := Str.split "," (ToString (value p)) in
    let '(acc', inClause, draws') :=
      expand_loop rng p valuesArray (acc st) "(" (draws st) in
    let inClause := Str.slice_0_m1 inClause +:+ ")" in
    {| acc := acc';
       query := Str.replaceAll (":" +:+ name p) inClause (query st);
       draws := draws' |}.

(** The bind compiler: the reduction from the empty object. *)
Definition compile (rng : nat → N) (sql : string)
    (parameterList : list Param) : cstate :=
  foldl (bind_step rng) {| acc := ∅; query := sql; draws := 0 |}
    parameterList.

(** The text of an integer-valued number in a template literal.  Up to
    2^53 in absolute value every integer is a double and is printed with
    all its digits; beyond, the engine prints the shortest digits of the
    double, which is the engine's [Number_toString]. *)
Definition int_toString (z : Z) : string :=
  if (Z.abs z <=? 2 ^ 53)%Z then pretty z
  else Number_toString (Finite (z <? 0)%Z (Z.abs_N z) 0).

(** The limit injector: [if (rowLimit > 0) query += ...], for the integer
    row limits the node offers. *)
Definition applyLimit (sql : string) (rowLimit : Z) : string :=
  if (0 <? rowLimit)%Z
  then sql +:+ " FETCH FIRST " +:+ int_toString rowLimit +:+ " ROWS ONLY"
  else sql.

(** The result projector, pushing onto [returnItems]. *)
Definition project (result : Result) (includeMetadata : bool)
    (returnItems : list INodeExecutionData) : list INodeExecutionData :=
  if includeMetadata then
    returnItems ++ [{| json := ResultObject result |}]
  else
    foldl (λ items row, items ++ [{| json := RowObject row |}])
      returnItems (default [] (rows result)).

Definition connection_execute (connection : option Connection)
    (sql : string) (binds : gmap string BindParameter)
    (opts : ExecuteOptions) : Eff.M Result :=
  match connection with
  | None => Eff.throw (Thrown "TypeError: connection.execute")
  | Some c =>
      let* _ := Eff.emit (EvExecute sql binds opts) in
      Eff.lift (conn_execute c sql binds opts)
  end.

Definition connection_close (c : Connection) : Eff.M unit :=
  let* _ := Eff.emit EvClose in
  match conn_close c with
  | None => Eff.ret tt
  | Some closeErr => Eff.throw closeErr
  end.

(** [OracleDatabase.execute]. *)
Definition execute (rng : nat → N) (h : Host)
  : Eff.M (list (list INodeExecutionData)) :=
  let* credentials := Eff.lift (getCredentials h) in
  let* connection := Eff.lift (getConnection h credentials) in
  let* returnItems :=
    Eff.try_finally
      (Eff.try_catch
         (let* sql := Eff.lift (param_query h) in
          let* values := Eff.lift (param_params h) in
          let parameterList := default [] values in
          let* includeMetadata := Eff.lift (param_includeMetadata h) in
          let* rowLimit := Eff.lift (param_rowLimit h) in
          let st := compile rng sql parameterList in
          let sql := applyLimit (query st) rowLimit in
          let* result :=
            connection_execute connection sql (acc st)
              {| outFormat := OUT_FORMAT_OBJECT;
                 autoCommit := true;
                 extendedMetaData := includeMetadata |} in
          Eff.ret (project result includeMetadata []))
         (λ error, Eff.throw (NodeOperationError error)))
      (match connection with
       | Some c =>
           Eff.try_catch (connection_close c)
             (λ closeErr, Eff.emit (EvConsoleError closeErr))
       | None => Eff.ret tt
       end) in
  Eff.ret [returnItems].

End Node.

(** ** Vocabulary of the statements *)

(** The names the expansion forms from draws [d], [d+1], ... of the
    random source: the original name followed by the suffix. *)
Fixpoint synthetic_names (rng : nat → N) (nm : string) (d k : nat)
  : list string :=
  match k with
  | 0 => []
  | S k' => (nm +:+ uniqueSuffix (rng d)) :: synthetic_names rng nm (S d) k'
  end.

(** Placeholder references to the names, separated by commas. *)
Definition placeholders (names : list string) : string :=
  String.concat "," ((λ k, ":" +:+ k) <$> names).

(** The parenthesized list of placeholder references. *)
Definition in_clause (names : list string) : string :=
  "(" +:+ placeholders names +:+ ")".

(** The text the loop appends to ["("]: every reference followed by a
    comma. *)
Fixpoint raw_listing (names : list string) : string :=
  match names with
  | [] => ""
  | k :: names' => ":" +:+ k +:+ "," +:+ raw_listing names'
  end.

(** The entries the loop inserts, in the order of insertion. *)
Definition insert_all (b : string → BindParameter)
    (entries : list (string * string)) (acc : gmap string BindParameter)
  : gmap string BindParameter :=
  foldl (λ a kv, <[kv.1 := b kv.2]> a) acc entries.

(** A name that contains neither a colon nor a dollar, as every
    identifier does. *)
Definition plain_name (nm : string) : Prop :=
  Str.mem ":" nm = false ∧ Str.mem "$" nm = false.

(** The binds of parameters that do not expand, inserted in order. *)
Definition plain_binds (toS : jsnum → string) (ps : list Param)
    (m : gmap string BindParameter) : gmap string BindParameter :=
  foldl (λ a p, obj_set a (name p) (bind_of toS p (value p))) m ps.

Definition is_close (ev : Event) : bool :=
  match ev with EvClose => true | _ => false end.

(** How many times [connection.close()] was called. *)
Definition closes (log : list Event) : nat := length (filter is_close log).

(** The same connection with a [close()] that succeeds. *)
Definition quiet (c : Connection) : Connection :=
  {| conn_execute := conn_execute c; conn_close := None |}.

(** The same host, handing out connections whose [close()] succeeds. *)
Definition with_quiet_close (h : Host) : Host :=
  {| getCredentials := getCredentials h;
     getConnection := λ credentials,
       match getConnection h credentials with
       | Ok connection => Ok (quiet <$> connection)
       | Throw e => Throw e
       end;
     param_query := param_query h;
     param_params := param_params h;
     param_includeMetadata := param_includeMetadata h;
     param_rowLimit := param_rowLimit h |}.

Definition execute_options (includeMetadata : bool) : ExecuteOptions :=
  {| outFormat := OUT_FORMAT_OBJECT; autoCommit := true;
     extendedMetaData := includeMetadata |}.

(** ** Sample inputs for the closed statements *)

Definition demo_rng (i : nat) : N :=
  (0x123e4567e89b42d3a456426614174000 + N.of_nat i)%N.

(** A second random source for the closed statements. *)
Definition other_rng (i : nat) : N :=
  (0x9b2e1c3d4f5a4b6c8d7e0f1a2b3c4d5e + N.of_nat i)%N.

(** A printing of numbers for the closed examples; the theorems hold for
    every printing function. *)
Definition sample_toString (n : jsnum) : string :=
  match n with
  | NaN => "NaN"
  | Infinity neg => if neg then "-Infinity" else "Infinity"
  | Finite neg m e =>
      (if neg then "-" else "") +:+ pretty m +:+
      (if (e =? 0)%Z then "" else "e" +:+ pretty e)
  end.

Definition start (sql : string) : cstate :=
  {| acc := ∅; query := sql; draws := 0 |}.

Definition ids_param : Param :=
  {| name := "ids"; value := VStr "1,2,3"; datatype := "number";
     parseInStatement := true |}.

Definition cat_param : Param :=
  {| name := "cat"; value := VStr "1,2"; datatype := "number";
     parseInStatement := true |}.

Definition category_param : Param :=
  {| name := "category"; value := VStr "toys"; datatype := "string";
     parseInStatement := false |}.

Definition cat_params : list Param := [cat_param; category_param].

Definition plain_params : list Param :=
  [ {| name := "id"; value := VStr "42"; datatype := "number";
       parseInStatement := false |};
    {| name := "label"; value := VStr "42"; datatype := "string";
       parseInStatement := false |} ].

(** An expanding parameter whose name holds two dollars. *)
Definition dollar_param (v : string) : Param :=
  {| name := "a$$"; value := VStr v; datatype := "number";
     parseInStatement := true |}.

Definition nan_param : Param :=
  {| name := "n"; value := VStr "abc"; datatype := "number";
     parseInStatement := false |}.

Definition sample_credentials : Credentials :=
  {| user := "system"; password := ""; connectionString := "localhost/orcl";
     thinMode := true |}.

Definition sample_host (c : Connection) (sql : string) (ps : list Param)
    (includeMetadata : bool) (rowLimit : Z) : Host :=
  {| getCredentials := Ok sample_credentials;
     getConnection := λ _, Ok (Some c);
     param_query := Ok sql;
     param_params := Ok (Some ps);
     param_includeMetadata := Ok includeMetadata;
     param_rowLimit := Ok rowLimit |}.

Definition one_row : Result :=
  {| rows := Some [[("N", SNull)]]; metaData := Some ["N"];
     rowsAffected := None |}.

(** A driver that accepts every statement. *)
Definition accepting (close_error : option jserror) : Connection :=
  {| conn_execute := λ _ _ _, Ok one_row; conn_close := close_error |}.

(** A driver that rejects every statement. *)
Definition rejecting (close_error : option jserror) : Connection :=
  {| conn_execute := λ _ _ _, Throw (Thrown "ORA-00942");
     conn_close := close_error |}.

(** The run of the node is unfolded down to the host and the driver. *)
Ltac run_execute :=
  unfold execute, Eff.run, Eff.bind, Eff.try_finally, Eff.try_catch,
    Eff.lift, Eff.throw, Eff.ret, connection_execute, connection_close,
    Eff.emit, Eff.bind.

(** ** Vocabulary of the further statements *)

Definition is_execute (ev : Event) : bool :=
  match ev with EvExecute _ _ _ => true | _ => false end.

(** How many times [connection.execute()] was called. *)
Definition executes (log : list Event) : nat := length (filter is_execute log).

(** What the closing of connection [c] adds to the log. *)
Definition close_log (c : Connection) : list Event :=
  EvClose :: match conn_close c with
             | Some closeErr => [EvConsoleError closeErr]
             | None => []
             end.

(** The error of the first of the four node parameters that cannot be
    read, in the order the node reads them. *)
Definition first_parameter_error (h : Host) : option jserror :=
  match param_query h with
  | Throw e => Some e
  | Ok _ =>
      match param_params h with
      | Throw e => Some e
      | Ok _ =>
          match param_includeMetadata h with
          | Throw e => Some e
          | Ok _ =>
              match param_rowLimit h with
              | Throw e => Some e
              | Ok _ => None
              end
          end
      end
  end.

(** A host that cannot read the node parameter [query]. *)
Definition unreadable_query (c : Connection) (e : jserror) : Host :=
  {| getCredentials := Ok sample_credentials;
     getConnection := λ _, Ok (Some c);
     param_query := Throw e;
     param_params := Ok None;
     param_includeMetadata := Ok false;
     param_rowLimit := Ok 0%Z |}.

(** A host whose connection cannot be obtained. *)
Definition unreachable (e : jserror) : Host :=
  {| getCredentials := Ok sample_credentials;
     getConnection := λ _, Throw e;
     param_query := Ok "SELECT 1 FROM dual";
     param_params := Ok None;
     param_includeMetadata := Ok false;
     param_rowLimit := Ok 0%Z |}.

(** A host that obtains a falsy connection. *)
Definition no_connection : Host :=
  {| getCredentials := Ok sample_credentials;
     getConnection := λ _, Ok None;
     param_query := Ok "SELECT 1 FROM dual";
     param_params := Ok None;
     param_includeMetadata := Ok false;
     param_rowLimit := Ok 0%Z |}.

Definition ids_host (c : Connection) : Host :=
  sample_host c "SELECT id FROM t WHERE id IN :ids" [ids_param] true 100.

(** The last parameter of the list that bears the name. *)
Definition last_named (nm : string) (ps : list Param) : option Param :=
  last (filter (λ p, name p = nm) ps).

(** The number of segments of the value of an expanding parameter. *)
Definition segments (toS : jsnum → string) (p : Param) : nat :=
  length (Str.split "," (ToString toS (value p))).

(** The identifiers a parameter list draws: one per segment of every
    expanding parameter. *)
Fixpoint total_draws (toS : jsnum → string) (ps : list Param) : nat :=
  match ps with
  | [] => 0
  | p :: ps' =>
      (if parseInStatement p then segments toS p else 0) + total_draws toS ps'
  end.

(** The binds a parameter list can add: one per parameter that does not
    expand, one per segment of those that do. *)
Fixpoint total_binds (toS : jsnum → string) (ps : list Param) : nat :=
  match ps with
  | [] => 0
  | p :: ps' =>
      (if parseInStatement p then segments toS p else 1) + total_binds toS ps'
  end.

Definition twice_id : list Param :=
  [ {| name := "id"; value := VStr "1"; datatype := "number";
       parseInStatement := false |};
    {| name := "id"; value := VStr "two"; datatype := "string";
       parseInStatement := false |} ].

(** A text of white space only, the empty text included. *)
Fixpoint blank (s : string) : bool :=
  match s with
  | "" => true
  | String c s' => Num.is_ws c && blank s'
  end.

(** A text of decimal digits only. *)
Fixpoint all_decimal (s : string) : bool :=
  match s with
  | "" => true
  | String c s' => Num.code_in 48 57 c && all_decimal s'
  end.

(** ** The numeric literals *)

(** The grammar of StringNumericLiteral (ECMA-262 7.1.4.1.1) below
    U+0100, which says what [Number] accepts of a text: white space, a
    literal, white space, where the literal may be absent. *)
Fixpoint all_in (ok : ascii → bool) (s : string) : bool :=
  match s with
  | "" => true
  | String c s' => ok c && all_in ok s'
  end.

Definition hex_char (c : ascii) : bool :=
  Num.code_in 48 57 c || Num.code_in 97 102 c || Num.code_in 65 70 c.

Definition octal_char (c : ascii) : bool := Num.code_in 48 55 c.

Definition binary_char (c : ascii) : bool := Num.code_in 48 49 c.

(** DecimalDigits: one digit or more. *)
Definition decimal_digits (s : string) : Prop :=
  s ≠ "" ∧ all_decimal s = true.

(** An optional sign. *)
Definition sign_opt (s : string) : Prop := s = "" ∨ s = "+" ∨ s = "-".

(** ExponentPart: [e] or [E], an optional sign, digits. *)
Definition exponent_part (s : string) : Prop :=
  ∃ e sg ds,
    s = e +:+ sg +:+ ds ∧ (e = "e" ∨ e = "E") ∧ sign_opt sg
    ∧ decimal_digits ds.

(** StrUnsignedDecimalLiteral: [Infinity]; digits and an optional
    exponent; or digits, a dot, digits and an optional exponent, with a
    digit on one side of the dot at least. *)
Definition unsigned_decimal_literal (s : string) : Prop :=
  s = "Infinity"
  ∨ ∃ d1 ex,
      (ex = "" ∨ exponent_part ex)
      ∧ all_decimal d1 = true
      ∧ (s = d1 +:+ ex ∧ d1 ≠ ""
         ∨ ∃ d2, s = d1 +:+ "." +:+ d2 +:+ ex ∧ all_decimal d2 = true
                 ∧ d1 +:+ d2 ≠ "").

(** NonDecimalIntegerLiteral: [0x], [0o] or [0b], in either case, and
    one digit of the base or more. *)
Definition non_decimal_literal (s : string) : Prop :=
  ∃ ds, ds ≠ ""
        ∧ ((s = "0x" +:+ ds ∨ s = "0X" +:+ ds) ∧ all_in hex_char ds = true
           ∨ (s = "0o" +:+ ds ∨ s = "0O" +:+ ds) ∧ all_in octal_char ds = true
           ∨ (s = "0b" +:+ ds ∨ s = "0B" +:+ ds)
             ∧ all_in binary_char ds = true).

(** StringNumericLiteral.  The empty and the blank text are literals;
    [Number] reads them as zero. *)
Definition numeric_literal (s : string) : Prop :=
  ∃ a body b,
    s = a +:+ body +:+ b ∧ blank a = true ∧ blank b = true
    ∧ (body = ""
       ∨ non_decimal_literal body
       ∨ ∃ sg u, body = sg +:+ u ∧ sign_opt sg ∧ unsigned_decimal_literal u).

(** A value [Number] has no number for: a text that is not a numeric
    literal, or the number NaN itself. *)
Definition not_numeric (v : jsvalue) : Prop :=
  match v with
  | VStr s => ¬ numeric_literal s
  | VNum n => n = NaN
  end.

(** A text without white space. *)
Definition no_ws (s : string) : bool := all_in (λ c, negb (Num.is_ws c)) s.

(** Case analysis on the comparisons of character codes. *)
Ltac code_cases :=
  unfold Num.digit_val, hex_char, octal_char, binary_char, Num.is_ws,
    Num.code_in;
  cbv zeta;
  repeat (match goal with
          | |- context [(?a <=? ?b)%N] => destruct (N.leb_spec a b)
          | |- context [(?a <? ?b)%N] => destruct (N.ltb_spec a b)
          end; cbn [andb orb]);
  try done; try lia; try (by eexists).

(** An expanding NUMBER parameter with a segment that is no number. *)
Definition mixed_param : Param :=
  {| name := "ids"; value := VStr "1,x,3"; datatype := "number";
     parseInStatement := true |}.

(** * Properties *)

(** ** Evaluation of the string and number primitives *)

Example replaceAll_ex1 : Str.replaceAll "b" "$&$&" "abc" = "abbc".
Proof. reflexivity. Qed.
Example replaceAll_ex2 : Str.replaceAll "" "-" "abc" = "-a-b-c-".
Proof. reflexivity. Qed.
Example replaceAll_ex3 : Str.replaceAll "aa" "x" "aaaaa" = "xxa".
Proof. reflexivity. Qed.
Example replaceAll_ex4 : Str.replaceAll "b" "[$`|$'|$$|$1]" "abc" = "a[a|c|$|$1]c".
Proof. reflexivity. Qed.
Example split_ex1 : Str.split "," "1,2,3" = ["1"; "2"; "3"].
Proof. reflexivity. Qed.
Example split_ex2 : Str.split "," "" = [""].
Proof. reflexivity. Qed.
Example split_ex3 : Str.split "," ",a," = [""; "a"; ""].
Proof. reflexivity. Qed.
Example number_ex1 : Num.StringToNumber "  12.50e1 " = Finite false 1250 (-1).
Proof. reflexivity. Qed.
Example number_ex2 : Num.StringToNumber "abc" = NaN.
Proof. reflexivity. Qed.
Example number_ex3 : Num.StringToNumber "" = Finite false 0 0.
Proof. reflexivity. Qed.
Example number_ex4 : Num.StringToNumber "0x1F" = Finite false 31 0.
Proof. reflexivity. Qed.
Example number_ex5 : Num.StringToNumber "-Infinity" = Infinity true.
Proof. reflexivity. Qed.
Example number_ex6 : Num.StringToNumber "-0x10" = NaN /\ Num.StringToNumber "." = NaN
  /\ Num.StringToNumber "5." = Finite false 5 0 /\ Num.StringToNumber ".5" = Finite false 5 (-1)
  /\ Num.StringToNumber "1e" = NaN /\ Num.StringToNumber "1 2" = NaN /\ Num.StringToNumber "1_0" = NaN
  /\ Num.StringToNumber "-.5E+2" = Finite true 5 1.
Proof. repeat split; reflexivity. Qed.
Example uuid_ex1 : UUID.to_string 0x123e4567e89b42d3a456426614174000 = "123e4567-e89b-42d3-a456-426614174000".
Proof. reflexivity. Qed.

Example compile_ex1 :
  let st := compile (λ _, "") demo_rng "SELECT id FROM t WHERE id IN (:ids)"
              [{| name := "ids"; value := VStr "1,2,3"; datatype := "number";
                  parseInStatement := true |}] in
  query st = "SELECT id FROM t WHERE id IN ((:ids123e4567_e89b_42d3_a456_426614174000,:ids123e4567_e89b_42d3_a456_426614174001,:ids123e4567_e89b_42d3_a456_426614174002))"
  /\ acc st = {[ "ids123e4567_e89b_42d3_a456_426614174000" := {| type := DB_NUMBER; val := VNum (Finite false 1 0) |};
                 "ids123e4567_e89b_42d3_a456_426614174001" := {| type := DB_NUMBER; val := VNum (Finite false 2 0) |};
                 "ids123e4567_e89b_42d3_a456_426614174002" := {| type := DB_NUMBER; val := VNum (Finite false 3 0) |} ]}.
Proof. split; by_compute. Qed.

(** ** Facts about strings *)

Section StrFacts.

Lemma str_app_cons c (a b : string) : String c a +:+ b = String c (a +:+ b).
Proof. reflexivity. Qed.

Lemma str_app_nil_l (b : string) : "" +:+ b = b.
Proof. reflexivity. Qed.

Lemma str_app_nil_r (a : string) : a +:+ "" = a.
Proof. induction a as [|c a IH]; [done|]. by rewrite str_app_cons, IH. Qed.

Lemma str_app_assoc (a b c : string) : (a +:+ b) +:+ c = a +:+ (b +:+ c).
Proof.
  induction a as [|x a IH]; [done|]. by rewrite !str_app_cons, IH.
Qed.

Lemma str_length_app (a b : string) :
  String.length (a +:+ b) = String.length a + String.length b.
Proof.
  induction a as [|x a IH]; [done|]. rewrite str_app_cons. simpl. by rewrite IH.
Qed.

Lemma mem_app c (a b : string) :
  Str.mem c (a +:+ b) = Str.mem c a || Str.mem c b.
Proof.
  induction a as [|x a IH]; [done|].
  rewrite str_app_cons. simpl. by destruct (Ascii.eqb c x).
Qed.

Lemma starts_with_refl_app (pat s : string) :
  Str.starts_with pat (pat +:+ s) = true.
Proof.
  induction pat as [|c pat IH]; [done|].
  rewrite str_app_cons. simpl. by rewrite Ascii.eqb_refl.
Qed.

Lemma mem_cons a c (t : string) :
  Str.mem a (String c t) = if Ascii.eqb a c then true else Str.mem a t.
Proof. reflexivity. Qed.

Lemma GetSubstitution_cons (matched str : string) position c t :
  Ascii.eqb c "$" = false →
  Str.GetSubstitution matched str position (String c t)
  = String c (Str.GetSubstitution matched str position t).
Proof. intros H. cbn [Str.GetSubstitution]. by rewrite H. Qed.

(** A template without a dollar stands for itself. *)
Lemma GetSubstitution_plain (matched str : string) position template :
  Str.mem "$" template = false →
  Str.GetSubstitution matched str position template = template.
Proof.
  induction template as [|c t IH]; [done|].
  rewrite mem_cons, (Ascii.eqb_sym "$" c).
  destruct (Ascii.eqb c "$") eqn:E; [done|]. intros H.
  by rewrite GetSubstitution_cons, IH.
Qed.

(** Two dollars stand for one. *)
Lemma GetSubstitution_dollars (matched str : string) position t :
  Str.GetSubstitution matched str position (String "$" (String "$" t))
  = String "$" (Str.GetSubstitution matched str position t).
Proof. reflexivity. Qed.

Lemma GetSubstitution_app_plain (matched str : string) position a t :
  Str.mem "$" a = false →
  Str.GetSubstitution matched str position (a +:+ t)
  = a +:+ Str.GetSubstitution matched str position t.
Proof.
  induction a as [|c a IH]; [done|].
  rewrite mem_cons, (Ascii.eqb_sym "$" c).
  destruct (Ascii.eqb c "$") eqn:E; [done|]. intros H.
  by rewrite !str_app_cons, GetSubstitution_cons, IH.
Qed.

End StrFacts.

(** ** Facts about [replaceAll] with a replacement that stands for the
    same text [r'] at every occurrence *)

Section ReplaceAllFacts.

Variables r r' : string.
Hypothesis r_subst :
  ∀ matched str position, Str.GetSubstitution matched str position r = r'.

Lemma starts_with_app_inv (q p X : string) :
  Str.starts_with q (p +:+ X) = true →
  Str.starts_with q p = true
  ∨ ∃ q2, q = p +:+ q2 ∧ q2 ≠ "" ∧ Str.starts_with q2 X = true.
Proof.
  revert q. induction p as [|c p IH]; intros q H.
  - destruct q as [|a q]; [by left|]. right. by exists (String a q).
  - destruct q as [|a q]; [by left|].
    rewrite str_app_cons in H. simpl in H. simpl.
    destruct (Ascii.eqb a c) eqn:E; [|done].
    apply Ascii.eqb_eq in E as ->.
    destruct (IH _ H) as [?|(q2 & -> & ? & ?)]; [by left|].
    right. by exists q2.
Qed.

Lemma occurs_cons_false (q : string) c (x : string) :
  Str.occurs q (String c x) = false →
  Str.starts_with q (String c x) = false ∧ Str.occurs q x = false.
Proof.
  cbn [Str.occurs]. by destruct (Str.starts_with q (String c x)).
Qed.

(** When the first character of the pattern does not come back in it,
    a text free of the pattern stays so in front of the pattern. *)
Lemma no_start_before_pattern a (pat' x rest : string) :
  Str.mem a pat' = false →
  Str.occurs (String a pat') x = false →
  Str.no_start (String a pat') x (String a pat' +:+ rest) = true.
Proof.
  intros Ha. induction x as [|c x IH]; [done|].
  intros [Hs Ho]%occurs_cons_false. cbn [Str.no_start].
  rewrite (IH Ho), andb_true_r.
  destruct (Str.starts_with _ (String c x +:+ _)) eqn:E; [|done].
  apply starts_with_app_inv in E as [E|(q2 & Hq & Hne & E)]; [congruence|].
  destruct q2 as [|b q2]; [done|].
  rewrite str_app_cons in E. simpl in E.
  destruct (Ascii.eqb b a) eqn:Eb; [|done].
  apply Ascii.eqb_eq in Eb as ->.
  rewrite str_app_cons in Hq. injection Hq as -> ->.
  rewrite mem_app, mem_cons, Ascii.eqb_refl, orb_true_r in Ha. done.
Qed.

Lemma no_start_at_end (pat x : string) :
  pat ≠ "" → Str.occurs pat x = false → Str.no_start pat x "" = true.
Proof.
  intros Hp. induction x as [|c x IH]; [done|].
  intros [Hs Ho]%occurs_cons_false. cbn [Str.no_start].
  by rewrite str_app_nil_r, Hs, (IH Ho).
Qed.

Lemma replaceAll_from_skip (pat x rest str : string) pos :
  Str.replaceAll_from pat r str pos (String.length x) (x +:+ rest)
  = Str.replaceAll_from pat r str (pos + String.length x) 0 rest.
Proof.
  revert pos. induction x as [|c x IH]; intros pos.
  - by rewrite str_app_nil_l, Nat.add_0_r.
  - rewrite str_app_cons. cbn [String.length Str.replaceAll_from].
    rewrite IH. f_equal. lia.
Qed.

(** At an occurrence the replacement is written and the scan resumes
    behind the occurrence. *)
Lemma replaceAll_from_match (pat rest str : string) pos :
  pat ≠ "" →
  Str.replaceAll_from pat r str pos 0 (pat +:+ rest)
  = r' +:+ Str.replaceAll_from pat r str (pos + String.length pat) 0 rest.
Proof.
  intros Hp. pose proof (starts_with_refl_app pat rest) as Hs.
  destruct pat as [|a pat']; [done|].
  rewrite str_app_cons in *. cbn [Str.replaceAll_from String.length].
  rewrite Hs, r_subst.
  rewrite replaceAll_from_skip. do 2 f_equal. lia.
Qed.

(** Text in which no occurrence begins is copied. *)
Lemma replaceAll_from_pass (pat pre rest str : string) pos :
  Str.no_start pat pre rest = true →
  Str.replaceAll_from pat r str pos 0 (pre +:+ rest)
  = pre +:+ Str.replaceAll_from pat r str (pos + String.length pre) 0 rest.
Proof.
  revert pos. induction pre as [|c pre IH]; intros pos H.
  - by rewrite !str_app_nil_l, Nat.add_0_r.
  - cbn [Str.no_start] in H. apply andb_true_iff in H as [H1 H2].
    apply negb_true_iff in H1. rewrite str_app_cons in *.
    cbn [Str.replaceAll_from String.length].
    by rewrite H1, (IH _ H2), str_app_cons, Nat.add_succ_r.
Qed.

Lemma replaceAll_from_end (pat str : string) pos :
  pat ≠ "" → Str.replaceAll_from pat r str pos 0 "" = "".
Proof. intros Hp. simpl. by destruct pat. Qed.

(** [pieces.join(pat)] is rewritten to [pieces.join(r')] when the pieces
    are free of the pattern and the pattern does not overlap itself. *)
Lemma replaceAll_from_concat pat a (pat' : string) (pieces : list string)
    str pos :
  pat = String a pat' →
  Str.mem a pat' = false →
  Forall (λ x, Str.occurs pat x = false) pieces →
  Str.replaceAll_from pat r str pos 0 (String.concat pat pieces)
  = String.concat r' pieces.
Proof.
  intros Epat Ha Hall. assert (pat ≠ "") as Hp by (by rewrite Epat).
  revert pos. induction Hall as [|x [|y pieces] Hx Hall IH]; intros pos.
  - by apply replaceAll_from_end.
  - cbn [String.concat].
    rewrite <-(str_app_nil_r x) at 1.
    rewrite replaceAll_from_pass by (by apply no_start_at_end).
    by rewrite replaceAll_from_end, str_app_nil_r.
  - change (String.concat pat (x :: y :: pieces))
      with (x +:+ pat +:+ String.concat pat (y :: pieces)).
    change (String.concat r' (x :: y :: pieces))
      with (x +:+ r' +:+ String.concat r' (y :: pieces)).
    rewrite replaceAll_from_pass.
    2:{ rewrite Epat. apply no_start_before_pattern; [done|by rewrite <-Epat]. }
    by rewrite replaceAll_from_match, IH.
Qed.

End ReplaceAllFacts.

(** ** Facts about the random identifiers *)

Section UUIDFacts.

Lemma occurs_chr a (s : string) : Str.occurs (Str.chr a) s = Str.mem a s.
Proof.
  induction s as [|c s IH]; [done|].
  cbn [Str.occurs Str.chr Str.starts_with]. rewrite mem_cons, IH.
  by destruct (Ascii.eqb a c).
Qed.

Lemma hex_digit_is_hex n : Str.mem (UUID.hex_digit n) "0123456789abcdef" = true.
Proof.
  unfold UUID.hex_digit.
  destruct (N.to_nat (n mod 16)) as [|m]; [reflexivity|].
  do 15 (destruct m as [|m]; [reflexivity|]). reflexivity.
Qed.

Lemma mem_hex c k u :
  Str.mem c (UUID.hex k u) = true → Str.mem c "0123456789abcdef" = true.
Proof.
  revert u. induction k as [|k IH]; intros u; [done|].
  cbn [UUID.hex]. rewrite mem_app. intros [H|H]%orb_true_iff; [by eapply IH|].
  unfold Str.chr in H. rewrite mem_cons in H.
  destruct (Ascii.eqb c _) eqn:E; [|done].
  apply Ascii.eqb_eq in E as ->. apply hex_digit_is_hex.
Qed.

Lemma not_mem_hex c k u :
  Str.mem c "0123456789abcdef" = false → Str.mem c (UUID.hex k u) = false.
Proof.
  intros Hc. destruct (Str.mem c (UUID.hex k u)) eqn:E; [|done].
  apply mem_hex in E. congruence.
Qed.

Lemma length_hex k u : String.length (UUID.hex k u) = k.
Proof.
  revert u. induction k as [|k IH]; intros u; [done|].
  cbn [UUID.hex]. rewrite str_length_app, IH. simpl. lia.
Qed.

(** The suffix is the identifier with its dashes turned to underscores. *)
Lemma uniqueSuffix_groups u :
  uniqueSuffix u
  = String.concat "_"
      [UUID.hex 8 (N.shiftr u 96); UUID.hex 4 (N.shiftr u 80);
       UUID.hex 4 (N.shiftr u 64); UUID.hex 4 (N.shiftr u 48);
       UUID.hex 12 u].
Proof.
  unfold uniqueSuffix, Str.replaceAll.
  change (UUID.to_string u) with
    (String.concat "-"
       [UUID.hex 8 (N.shiftr u 96); UUID.hex 4 (N.shiftr u 80);
        UUID.hex 4 (N.shiftr u 64); UUID.hex 4 (N.shiftr u 48);
        UUID.hex 12 u]).
  apply (replaceAll_from_concat "_" "_" (λ _ _ _, eq_refl) "-" "-" "" _ _ 0
           eq_refl eq_refl).
  repeat constructor;
    change "-" with (Str.chr "-"); rewrite occurs_chr; by apply not_mem_hex.
Qed.

Lemma mem_uniqueSuffix c u :
  Str.mem c "0123456789abcdef_" = false → Str.mem c (uniqueSuffix u) = false.
Proof.
  intros Hc. rewrite uniqueSuffix_groups. cbn [String.concat].
  assert (Str.mem c "0123456789abcdef" = false) as Hh.
  { revert Hc. rewrite !mem_cons.
    repeat (destruct (Ascii.eqb c _); [done|]). done. }
  assert (Str.mem c "_" = false) as Hu.
  { revert Hc. rewrite !mem_cons.
    repeat (destruct (Ascii.eqb c _); [done|]). done. }
  rewrite !mem_app, !Hu, !not_mem_hex by done. done.
Qed.

Lemma length_uniqueSuffix u : String.length (uniqueSuffix u) = 36.
Proof.
  rewrite uniqueSuffix_groups. cbn [String.concat].
  by rewrite !str_length_app, !length_hex.
Qed.

End UUIDFacts.

(** ** Facts about the assignment to the bind object *)

Section ObjSetFacts.

Lemma obj_set_ne (o : gmap string BindParameter) k v :
  k ≠ "__proto__" → obj_set o k v = <[k := v]> o.
Proof.
  intros Hk. unfold obj_set.
  by destruct (String.eqb_spec k "__proto__").
Qed.

Lemma obj_set_proto (o : gmap string BindParameter) v :
  obj_set o "__proto__" v = o.
Proof. reflexivity. Qed.

(** A synthetic name is longer than [__proto__]. *)
Lemma synthetic_name_not_proto nm u : nm +:+ uniqueSuffix u ≠ "__proto__".
Proof.
  intros H. apply (f_equal String.length) in H.
  rewrite str_length_app, length_uniqueSuffix in H. simpl in H. lia.
Qed.

Lemma obj_set_synthetic (o : gmap string BindParameter) nm u v :
  obj_set o (nm +:+ uniqueSuffix u) v = <[nm +:+ uniqueSuffix u := v]> o.
Proof. apply obj_set_ne, synthetic_name_not_proto. Qed.

Lemma lookup_obj_set_ne (o : gmap string BindParameter) k k' v :
  k ≠ k' → obj_set o k v !! k' = o !! k'.
Proof.
  intros Hk. unfold obj_set. destruct (String.eqb k "__proto__"); [done|].
  by apply lookup_insert_ne.
Qed.

Lemma size_obj_set_le (o : gmap string BindParameter) k v :
  size (obj_set o k v) ≤ S (size o).
Proof.
  unfold obj_set. destruct (String.eqb k "__proto__"); [lia|].
  rewrite map_size_insert. destruct (o !! k); simpl; lia.
Qed.

Lemma dom_obj_set_subseteq (o : gmap string BindParameter) k v :
  dom o ⊆ dom (obj_set o k v) ∧ dom (obj_set o k v) ⊆ dom o ∪ {[k]}.
Proof.
  unfold obj_set. destruct (String.eqb k "__proto__"); [set_solver|].
  rewrite dom_insert_L. set_solver.
Qed.

End ObjSetFacts.

(** ** Facts about the expansion loop *)

Section InsertAll.

Variable b : string → BindParameter.

Lemma insert_all_cons k v entries (acc : gmap string BindParameter) :
  insert_all b ((k, v) :: entries) acc = insert_all b entries (<[k := b v]> acc).
Proof. reflexivity. Qed.

Lemma insert_all_lookup_notin entries (acc : gmap string BindParameter) k :
  k ∉ entries.*1 → insert_all b entries acc !! k = acc !! k.
Proof.
  revert acc. induction entries as [|[k' v'] entries IH]; intros acc Hk; [done|].
  rewrite insert_all_cons, IH by set_solver.
  apply lookup_insert_ne. set_solver.
Qed.

Lemma insert_all_lookup entries (acc : gmap string BindParameter) k v :
  NoDup entries.*1 → (k, v) ∈ entries →
  insert_all b entries acc !! k = Some (b v).
Proof.
  revert acc. induction entries as [|[k' v'] entries IH]; intros acc Hnd Hin.
  { by apply elem_of_nil in Hin. }
  rewrite fmap_cons in Hnd. apply NoDup_cons in Hnd as [Hk' Hnd].
  rewrite insert_all_cons.
  apply elem_of_cons in Hin as [[= -> ->]|Hin].
  - rewrite insert_all_lookup_notin by done. apply lookup_insert_eq.
  - by apply IH.
Qed.

Lemma dom_insert_all entries (acc : gmap string BindParameter) :
  dom (insert_all b entries acc) = dom acc ∪ list_to_set entries.*1.
Proof.
  revert acc. induction entries as [|[k' v'] entries IH]; intros acc.
  - simpl. set_solver.
  - rewrite insert_all_cons, IH, dom_insert_L. set_solver.
Qed.

Lemma size_insert_all entries (acc : gmap string BindParameter) :
  NoDup entries.*1 → (∀ k, k ∈ entries.*1 → acc !! k = None) →
  size (insert_all b entries acc) = size acc + length entries.
Proof.
  revert acc. induction entries as [|[k' v'] entries IH]; intros acc Hnd Hfresh.
  { simpl. lia. }
  rewrite fmap_cons in Hnd, Hfresh. apply NoDup_cons in Hnd as [Hk' Hnd].
  rewrite insert_all_cons, IH; [| done |].
  - rewrite map_size_insert_None by (apply Hfresh; set_solver). simpl. lia.
  - intros k Hk. rewrite lookup_insert_ne by set_solver.
    apply Hfresh. set_solver.
Qed.

End InsertAll.

Section ExpandFacts.

Variable toS : jsnum → string.
Variable rng : nat → N.

Lemma length_synthetic_names nm d k :
  length (synthetic_names rng nm d k) = k.
Proof. revert d. induction k as [|k IH]; intros d; simpl; [done|]. by rewrite IH. Qed.

Lemma lookup_synthetic_names nm d k i :
  i < k →
  synthetic_names rng nm d k !! i = Some (nm +:+ uniqueSuffix (rng (d + i))).
Proof.
  revert d i. induction k as [|k IH]; intros d i Hi; [lia|].
  destruct i as [|i]; simpl.
  - by rewrite Nat.add_0_r.
  - rewrite IH by lia. by rewrite Nat.add_succ_r.
Qed.

Lemma expand_loop_eq p vals (acc : gmap string BindParameter) inC d :
  expand_loop toS rng p vals acc inC d
  = (insert_all (λ v, bind_of toS p (VStr v))
       (zip (synthetic_names rng (name p) d (length vals)) vals) acc,
     inC +:+ raw_listing (synthetic_names rng (name p) d (length vals)),
     d + length vals).
Proof.
  revert acc inC d. induction vals as [|v vals IH]; intros acc inC d.
  - simpl. by rewrite str_app_nil_r, Nat.add_0_r.
  - cbn [expand_loop length synthetic_names raw_listing zip zip_with].
    by rewrite obj_set_synthetic, IH, insert_all_cons, !str_app_assoc,
      Nat.add_succ_r.
Qed.

Lemma split_nonempty sep s : Str.split sep s ≠ [].
Proof.
  destruct s as [|c s]; [done|]. simpl.
  destruct (Ascii.eqb c sep); [done|]. by destruct (Str.split sep s).
Qed.

Lemma take_length_app (s t : string) : Str.take (String.length s) (s +:+ t) = s.
Proof.
  induction s as [|c s IH]; [by destruct t|].
  rewrite str_app_cons. simpl. by rewrite IH.
Qed.

Lemma slice_0_m1_snoc (s : string) : Str.slice_0_m1 (s +:+ ",") = s.
Proof.
  unfold Str.slice_0_m1. rewrite str_length_app. simpl.
  replace (String.length s + 1 - 1) with (String.length s) by lia.
  apply take_length_app.
Qed.

Lemma raw_listing_placeholders names :
  names ≠ [] → raw_listing names = placeholders names +:+ ",".
Proof.
  induction names as [|k [|k' names] IH]; intros Hne; [done| |].
  - unfold placeholders. simpl. by rewrite !str_app_assoc.
  - change (raw_listing (k :: k' :: names))
      with (":" +:+ k +:+ "," +:+ raw_listing (k' :: names)).
    rewrite IH by done. unfold placeholders.
    rewrite !fmap_cons.
    change (String.concat "," ((":" +:+ k) :: (":" +:+ k') :: _))
      with ((":" +:+ k) +:+ "," +:+
            String.concat "," ((":" +:+ k') :: ((λ k, ":" +:+ k) <$> names))).
    by rewrite !str_app_assoc.
Qed.

(** What the loop leaves in [inClause] becomes the parenthesized list. *)
Lemma close_in_clause names :
  names ≠ [] →
  Str.slice_0_m1 ("(" +:+ raw_listing names) +:+ ")" = in_clause names.
Proof.
  intros Hne. rewrite raw_listing_placeholders by done.
  rewrite <-str_app_assoc, slice_0_m1_snoc. unfold in_clause.
  by rewrite str_app_assoc.
Qed.

Lemma mem_placeholders c names :
  Ascii.eqb c ":" = false → Ascii.eqb c "," = false →
  Forall (λ k, Str.mem c k = false) names →
  Str.mem c (placeholders names) = false.
Proof.
  intros Hc1 Hc2 Hall. unfold placeholders.
  induction Hall as [|k [|k' names] Hk Hall IH]; [done| |].
  - change (Str.mem c (":" +:+ k) = false).
    by rewrite mem_app, mem_cons, Hc1, Hk.
  - rewrite !fmap_cons in *.
    change (String.concat "," ((":" +:+ k) :: (":" +:+ k') :: ?l))
      with ((":" +:+ k) +:+ "," +:+ String.concat "," ((":" +:+ k') :: l)).
    rewrite !mem_app, IH, Hk. change "," with (Str.chr ",").
    change ":" with (Str.chr ":"). unfold Str.chr.
    by rewrite !mem_cons, Hc1, Hc2.
Qed.

Lemma in_clause_plain names :
  Forall (λ k, Str.mem "$" k = false) names →
  Str.mem "$" (in_clause names) = false.
Proof.
  intros Hall. unfold in_clause.
  by rewrite !mem_app, mem_placeholders.
Qed.

Lemma synthetic_names_plain nm d k :
  Str.mem "$" nm = false →
  Forall (λ k, Str.mem "$" k = false) (synthetic_names rng nm d k).
Proof.
  intros Hnm. revert d. induction k as [|k IH]; intros d; simpl; [done|].
  constructor; [|done]. by rewrite mem_app, Hnm, mem_uniqueSuffix.
Qed.

(** The expanding branch of the callback, in closed form. *)
Lemma bind_step_expand (st : cstate) p :
  parseInStatement p = true →
  let vals := Str.split "," (ToString toS (value p)) in
  let names := synthetic_names rng (name p) (draws st) (length vals) in
  bind_step toS rng st p
  = {| acc := insert_all (λ v, bind_of toS p (VStr v)) (zip names vals) (acc st);
       query := Str.replaceAll (":" +:+ name p) (in_clause names) (query st);
       draws := draws st + length vals |}.
Proof.
  intros Hp vals names. unfold bind_step. rewrite Hp. cbn [negb].
  fold vals. rewrite expand_loop_eq. fold names.
  rewrite close_in_clause; [done|].
  subst names. pose proof (split_nonempty "," (ToString toS (value p))).
  fold vals in H. by destruct vals.
Qed.

Lemma bind_step_plain (st : cstate) p :
  parseInStatement p = false →
  bind_step toS rng st p
  = {| acc := obj_set (acc st) (name p) (bind_of toS p (value p));
       query := query st;
       draws := draws st |}.
Proof. intros Hp. unfold bind_step. by rewrite Hp. Qed.

End ExpandFacts.

(** ** Rewriting the placeholder *)

Section Rewriting.

Lemma split_no_sep sep s : Str.mem sep s = false → Str.split sep s = [s].
Proof.
  induction s as [|c s IH]; [done|].
  rewrite mem_cons, (Ascii.eqb_sym sep c). cbn [Str.split].
  destruct (Ascii.eqb c sep); [done|]. intros H. by rewrite (IH H).
Qed.

(** With a plain name and a plain clause, [replaceAll] turns the SQL
    [pieces.join(":" + name)] into [pieces.join(clause)]. *)
Lemma replaceAll_placeholder nm clause (pieces : list string) :
  Str.mem ":" nm = false →
  Str.mem "$" clause = false →
  Forall (λ piece, Str.occurs (":" +:+ nm) piece = false) pieces →
  Str.replaceAll (":" +:+ nm) clause (String.concat (":" +:+ nm) pieces)
  = String.concat clause pieces.
Proof.
  intros Hnm Hcl Hall. unfold Str.replaceAll.
  assert (∀ matched str position,
            Str.GetSubstitution matched str position clause = clause) as Hs
    by (intros; by apply GetSubstitution_plain).
  by apply (replaceAll_from_concat clause clause Hs (":" +:+ nm) ":" nm).
Qed.

(** The same when the clause holds dollars: the SQL gets the text the
    clause stands for. *)
Lemma replaceAll_placeholder_subst nm clause clause' (pieces : list string) :
  Str.mem ":" nm = false →
  (∀ matched str position,
     Str.GetSubstitution matched str position clause = clause') →
  Forall (λ piece, Str.occurs (":" +:+ nm) piece = false) pieces →
  Str.replaceAll (":" +:+ nm) clause (String.concat (":" +:+ nm) pieces)
  = String.concat clause' pieces.
Proof.
  intros Hnm Hcl Hall. unfold Str.replaceAll.
  by apply (replaceAll_from_concat clause clause' Hcl (":" +:+ nm) ":" nm).
Qed.

Lemma starts_with_app_l (pat a b : string) :
  Str.starts_with pat a = true → Str.starts_with pat (a +:+ b) = true.
Proof.
  revert a. induction pat as [|c pat IH]; intros [|d a] H; try done.
  rewrite str_app_cons. simpl in *. destruct (Ascii.eqb c d); [by apply IH|done].
Qed.

Lemma starts_with_decompose (pat s : string) :
  Str.starts_with pat s = true → ∃ rest, s = pat +:+ rest.
Proof.
  revert s. induction pat as [|c pat IH]; intros s H; [by exists s|].
  destruct s as [|d s]; [done|]. simpl in H.
  destruct (Ascii.eqb c d) eqn:E; [|done]. apply Ascii.eqb_eq in E as ->.
  destruct (IH _ H) as [rest ->]. by exists rest.
Qed.

(** Every SQL text is a list of pieces free of the token, joined by the
    token. *)
Lemma sql_pieces_exist (tok sql : string) :
  tok ≠ "" →
  ∃ pieces, sql = String.concat tok pieces
            ∧ Forall (λ piece, Str.occurs tok piece = false) pieces.
Proof.
  intros Htok.
  assert (Str.occurs tok "" = false) as Hempty by (by destruct tok).
  cut (∀ n q, String.length q ≤ n →
         ∃ pieces, pieces ≠ [] ∧ q = String.concat tok pieces
                   ∧ Forall (λ piece, Str.occurs tok piece = false) pieces).
  { intros H. destruct (H _ sql (le_n _)) as (pieces & _ & ? & ?). eauto. }
  induction n as [|n IH]; intros q Hlen.
  { destruct q; [|simpl in Hlen; lia]. exists [""]. by repeat constructor. }
  destruct q as [|c q]; [exists [""]; by repeat constructor|].
  destruct (Str.starts_with tok (String c q)) eqn:E.
  - destruct (starts_with_decompose _ _ E) as [rest Hrest].
    assert (String.length rest ≤ n) as Hn.
    { apply (f_equal String.length) in Hrest.
      rewrite str_length_app in Hrest. simpl in Hlen, Hrest.
      destruct tok; [done|]. simpl in Hrest. lia. }
    destruct (IH rest Hn) as ([|y l] & Hne & -> & Hall); [done|].
    exists ("" :: y :: l). split; [done|]. split; [|by constructor].
    by rewrite Hrest.
  - simpl in Hlen.
    destruct (IH q ltac:(lia)) as ([|x l] & Hne & Hq & Hall); [done|].
    exists (String c x :: l). split; [done|].
    apply Forall_cons in Hall as [Hx Hall]. split.
    + rewrite Hq. by destruct l.
    + constructor; [|done]. cbn [Str.occurs].
      destruct (Str.starts_with tok (String c x)) eqn:E'; [|done].
      rewrite Hq in E. destruct l as [|y l].
      * cbn [String.concat] in E. congruence.
      * change (String.concat tok (x :: y :: l))
          with (x +:+ tok +:+ String.concat tok (y :: l)) in E.
        rewrite <-str_app_cons, starts_with_app_l in E by done. done.
Qed.

End Rewriting.

(** ** The bind compiler: expansion *)

(** X18.  An expand-as-list parameter whose value splits on [","] into
    [k] sub-values adds exactly [k] entries to the bind map, one under
    each synthetic name (the original name followed by the suffix of a
    fresh draw), each holding the sub-value coerced per the declared
    type; the entries already there are kept; and every occurrence of
    the placeholder [:name] in the SQL is replaced by the parenthesized,
    comma-separated list of the [k] placeholder references, in split
    order.  The name is plain (no colon, no dollar), the synthetic names
    are fresh, and the SQL is read as the pieces between the occurrences
    of the placeholder. *)
Theorem expansion_adds_k_binds_and_rewrites
    (toS : jsnum → string) (rng : nat → N) (st : cstate) (p : Param)
    (pieces : list string) :
  parseInStatement p = true →
  plain_name (name p) →
  NoDup (synthetic_names rng (name p) (draws st)
           (length (Str.split "," (ToString toS (value p))))) →
  (∀ k, k ∈ synthetic_names rng (name p) (draws st)
              (length (Str.split "," (ToString toS (value p)))) →
        acc st !! k = None) →
  query st = String.concat (":" +:+ name p) pieces →
  Forall (λ piece, Str.occurs (":" +:+ name p) piece = false) pieces →
  let vals := Str.split "," (ToString toS (value p)) in
  let names := synthetic_names rng (name p) (draws st) (length vals) in
  let st' := bind_step toS rng st p in
  length names = length vals
  ∧ size (acc st') = size (acc st) + length vals
  ∧ dom (acc st') = dom (acc st) ∪ list_to_set names
  ∧ (∀ i k v, names !! i = Some k → vals !! i = Some v →
       acc st' !! k
       = Some (if String.eqb (datatype p) "number"
               then {| type := DB_NUMBER; val := VNum (Num.StringToNumber v) |}
               else {| type := DB_STRING; val := VStr v |}))
  ∧ (∀ k, k ∉ names → acc st' !! k = acc st !! k)
  ∧ query st' = String.concat (in_clause names) pieces.
Proof.
  intros Hp [Hcolon Hdollar] Hnd Hfresh Hq Hpieces vals names st'.
  assert (length names = length vals) as Hlen
    by apply length_synthetic_names.
  assert ((zip names vals).*1 = names) as Hfst by (apply fst_zip; lia).
  subst st'. rewrite (bind_step_expand toS rng st p Hp).
  fold vals names. cbn [acc query].
  split_and!.
  - done.
  - rewrite size_insert_all; rewrite ?Hfst; [|done..].
    rewrite length_zip_with. lia.
  - by rewrite dom_insert_all, Hfst.
  - intros i k v Hk Hv.
    rewrite (insert_all_lookup _ _ _ k v); rewrite ?Hfst; [|done|].
    + unfold bind_of, dataType, coerce, is_number.
      by destruct (String.eqb (datatype p) "number").
    + apply list_elem_of_lookup. exists i. apply lookup_zip_with_Some; eauto.
  - intros k Hk. apply insert_all_lookup_notin. by rewrite Hfst.
  - rewrite Hq. apply replaceAll_placeholder; [done| |done].
    apply in_clause_plain. by apply synthetic_names_plain.
Qed.

Lemma expansion_adds_k_binds_and_rewrites_witness :
  let sql := "SELECT id FROM t WHERE id IN (:ids)" in
  let pieces := ["SELECT id FROM t WHERE id IN ("; ")"] in
  let names := synthetic_names demo_rng "ids" 0 3 in
  let st' := bind_step sample_toString demo_rng (start sql) ids_param in
  (parseInStatement ids_param = true
   ∧ plain_name (name ids_param)
   ∧ NoDup names
   ∧ (∀ k, k ∈ names → acc (start sql) !! k = None)
   ∧ sql = String.concat ":ids" pieces
   ∧ Forall (λ piece, Str.occurs ":ids" piece = false) pieces)
  ∧ size (acc st') = 3
  ∧ acc st' !! "ids123e4567_e89b_42d3_a456_426614174001"
    = Some {| type := DB_NUMBER; val := VNum (Finite false 2 0) |}
  ∧ query st'
    = "SELECT id FROM t WHERE id IN ((:ids123e4567_e89b_42d3_a456_426614174000,:ids123e4567_e89b_42d3_a456_426614174001,:ids123e4567_e89b_42d3_a456_426614174002))".
Proof.
  intros sql pieces names st'.
  assert (parseInStatement ids_param = true) as H1 by reflexivity.
  assert (plain_name (name ids_param)) as H2 by (split; reflexivity).
  assert (NoDup names) as H3 by by_compute.
  assert (∀ k, k ∈ names → acc (start sql) !! k = None) as H4
    by (intros k _; apply lookup_empty).
  assert (sql = String.concat ":ids" pieces) as H5 by reflexivity.
  assert (Forall (λ piece, Str.occurs ":ids" piece = false) pieces) as H6
    by (repeat constructor).
  split; [by repeat split|].
  destruct (expansion_adds_k_binds_and_rewrites sample_toString demo_rng
              (start sql) ids_param pieces H1 H2 H3 H4 H5 H6)
    as (_ & Hsize & _ & Hlook & _ & Hq).
  split; [exact Hsize|]. split; [|exact Hq].
  exact (Hlook 1 _ "2" eq_refl eq_refl).
Defined.

(** X19.  An expand-as-list parameter with a plain name whose value
    holds no comma is a list of one element: the compilation succeeds,
    adds exactly one entry, under the one synthetic name when that name
    is fresh, and replaces the placeholder by a parenthesized clause with
    that single reference.  The empty value gives one entry whose value
    is the empty string, or zero when the declared type is NUMBER. *)
Theorem expansion_without_comma
    (toS : jsnum → string) (rng : nat → N) (st : cstate) (p : Param)
    (pieces : list string) :
  parseInStatement p = true →
  plain_name (name p) →
  Str.mem "," (ToString toS (value p)) = false →
  acc st !! (name p +:+ uniqueSuffix (rng (draws st))) = None →
  query st = String.concat (":" +:+ name p) pieces →
  Forall (λ piece, Str.occurs (":" +:+ name p) piece = false) pieces →
  let v := ToString toS (value p) in
  let k := name p +:+ uniqueSuffix (rng (draws st)) in
  let entry :=
    if String.eqb (datatype p) "number"
    then {| type := DB_NUMBER; val := VNum (Num.StringToNumber v) |}
    else {| type := DB_STRING; val := VStr v |} in
  let st' := bind_step toS rng st p in
  acc st' = <[k := entry]> (acc st)
  ∧ size (acc st') = S (size (acc st))
  ∧ query st' = String.concat ("(" +:+ ":" +:+ k +:+ ")") pieces
  ∧ draws st' = S (draws st)
  ∧ (v = "" →
     val entry = if String.eqb (datatype p) "number"
                 then VNum (Finite false 0 0) else VStr "").
Proof.
  intros Hp [Hcolon Hdollar] Hcomma Hfresh Hq Hpieces v k entry st'.
  subst st'. rewrite (bind_step_expand toS rng st p Hp).
  fold v. rewrite (split_no_sep "," v Hcomma).
  cbn [length synthetic_names zip zip_with acc query draws].
  fold k. unfold insert_all. cbn [foldl fst snd].
  assert (bind_of toS p (VStr v) = entry) as ->.
  { subst entry. unfold bind_of, dataType, coerce, is_number.
    by destruct (String.eqb (datatype p) "number"). }
  split_and!.
  - done.
  - by apply map_size_insert_None.
  - rewrite Hq. change ("(" +:+ ":" +:+ k +:+ ")") with (in_clause [k]).
    apply replaceAll_placeholder; [done| |done].
    apply in_clause_plain. constructor; [|done].
    subst k. by rewrite mem_app, Hdollar, mem_uniqueSuffix.
  - lia.
  - intros ->. subst entry. by destruct (String.eqb (datatype p) "number").
Qed.

Lemma expansion_without_comma_witness :
  let sql := "SELECT id FROM t WHERE name IN :n" in
  let pieces := ["SELECT id FROM t WHERE name IN "; ""] in
  let p := {| name := "n"; value := VStr ""; datatype := "number";
              parseInStatement := true |} in
  let st' := bind_step sample_toString demo_rng (start sql) p in
  (parseInStatement p = true
   ∧ plain_name (name p)
   ∧ Str.mem "," (ToString sample_toString (value p)) = false
   ∧ acc (start sql) !! (name p +:+ uniqueSuffix (demo_rng 0)) = None
   ∧ sql = String.concat ":n" pieces
   ∧ Forall (λ piece, Str.occurs ":n" piece = false) pieces)
  ∧ acc st'
    = {[ "n123e4567_e89b_42d3_a456_426614174000"
         := {| type := DB_NUMBER; val := VNum (Finite false 0 0) |} ]}
  ∧ query st'
    = "SELECT id FROM t WHERE name IN (:n123e4567_e89b_42d3_a456_426614174000)".
Proof.
  intros sql pieces p st'.
  assert (parseInStatement p = true) as H1 by reflexivity.
  assert (plain_name (name p)) as H2 by (split; reflexivity).
  assert (Str.mem "," (ToString sample_toString (value p)) = false) as H3
    by reflexivity.
  assert (acc (start sql) !! (name p +:+ uniqueSuffix (demo_rng 0)) = None)
    as H4 by apply lookup_empty.
  assert (sql = String.concat ":n" pieces) as H5 by reflexivity.
  assert (Forall (λ piece, Str.occurs ":n" piece = false) pieces) as H6
    by (repeat constructor).
  split; [by repeat split|].
  destruct (expansion_without_comma sample_toString demo_rng (start sql) p
              pieces H1 H2 H3 H4 H5 H6) as (Hacc & _ & Hq & _ & _).
  split; [|exact Hq].
  etrans; [exact Hacc|]. by_compute.
Defined.

(** ** The bind compiler: a name with dollars *)

Section DollarName.

Variable toS : jsnum → string.
Variable rng : nat → N.

Lemma elem_of_synthetic_names nm d k x :
  x ∈ synthetic_names rng nm d k →
  ∃ i, d ≤ i < d + k ∧ x = nm +:+ uniqueSuffix (rng i).
Proof.
  revert d. induction k as [|k IH]; intros d; cbn [synthetic_names].
  - by intros ?%elem_of_nil.
  - intros [->|Hx]%elem_of_cons.
    + exists d. split; [lia|done].
    + destruct (IH _ Hx) as (i & Hi & ->). exists i. split; [lia|done].
Qed.

Lemma length_synthetic_name nm d k x :
  x ∈ synthetic_names rng nm d k → String.length x = String.length nm + 36.
Proof.
  intros (i & _ & ->)%elem_of_synthetic_names.
  by rewrite str_length_app, length_uniqueSuffix.
Qed.

Lemma dollar_suffix_substitution (matched str : string) position u t :
  Str.GetSubstitution matched str position
    (String ":" (String "a" (String "$" (String "$" (uniqueSuffix u +:+ t)))))
  = String ":" (String "a" (String "$"
      (uniqueSuffix u +:+ Str.GetSubstitution matched str position t))).
Proof.
  rewrite !GetSubstitution_cons by reflexivity.
  rewrite GetSubstitution_dollars, GetSubstitution_app_plain; [done|].
  by apply mem_uniqueSuffix.
Qed.

Lemma dollar_clause_substitution3 (matched str : string) position d :
  Str.GetSubstitution matched str position
    (in_clause (synthetic_names rng "a$$" d 3))
  = in_clause (synthetic_names rng "a$" d 3).
Proof.
  unfold in_clause, placeholders.
  cbn [synthetic_names fmap list_fmap String.concat].
  rewrite !str_app_assoc, !str_app_cons, !str_app_nil_l.
  rewrite GetSubstitution_cons by reflexivity.
  rewrite dollar_suffix_substitution.
  rewrite GetSubstitution_cons by reflexivity.
  rewrite dollar_suffix_substitution.
  rewrite GetSubstitution_cons by reflexivity.
  by rewrite dollar_suffix_substitution.
Qed.

Lemma dollar_clause_substitution1 (matched str : string) position d :
  Str.GetSubstitution matched str position
    (in_clause (synthetic_names rng "a$$" d 1))
  = in_clause (synthetic_names rng "a$" d 1).
Proof.
  unfold in_clause, placeholders.
  cbn [synthetic_names fmap list_fmap String.concat].
  rewrite !str_app_assoc, !str_app_cons, !str_app_nil_l.
  rewrite GetSubstitution_cons by reflexivity.
  by rewrite dollar_suffix_substitution.
Qed.

Lemma dollar_reference_unbound (m : gmap string BindParameter) d k d' k' x :
  dom m = list_to_set (synthetic_names rng "a$$" d k) →
  x ∈ synthetic_names rng "a$" d' k' →
  m !! x = None.
Proof.
  intros Hdom Hx. apply not_elem_of_dom. rewrite Hdom.
  intros Hin%elem_of_list_to_set.
  apply length_synthetic_name in Hx, Hin. rewrite Hx in Hin. done.
Qed.

(** C2, as the specification states it, fails for a name with dollars.
    With the expanding NUMBER parameter [a$$] of value ["1,2,3"],
    whatever identifiers are drawn, the three binds are added under the
    synthetic names [a$$<suffix>], but [replaceAll] reads the two dollars
    of the clause as one: the SQL refers to [:a$<suffix>], three names
    the bind map does not hold, and is not the SQL with the list of the
    synthetic names. *)
Theorem dollar_name_references_no_bind :
  let st := compile toS rng "SELECT id FROM t WHERE id IN :a$$"
              [dollar_param "1,2,3"] in
  let bound := synthetic_names rng "a$$" 0 3 in
  let referenced := synthetic_names rng "a$" 0 3 in
  dom (acc st) = list_to_set bound
  ∧ query st = "SELECT id FROM t WHERE id IN " +:+ in_clause referenced
  ∧ (∀ k, k ∈ referenced → acc st !! k = None)
  ∧ query st ≠ "SELECT id FROM t WHERE id IN " +:+ in_clause bound.
Proof.
  intros st bound referenced.
  assert (dom (acc st) = list_to_set bound) as Hdom.
  { subst st. unfold compile. cbn [foldl].
    rewrite (bind_step_expand toS rng _ (dollar_param "1,2,3") eq_refl).
    cbn [acc query value ToString name draws dollar_param].
    change (Str.split "," "1,2,3") with ["1"; "2"; "3"].
    cbn [length]. fold bound.
    rewrite dom_insert_all, fst_zip by (by cbn).
    by rewrite dom_empty_L, (left_id_L ∅ (∪)). }
  assert (query st = "SELECT id FROM t WHERE id IN " +:+ in_clause referenced)
    as Hq.
  { subst st. unfold compile. cbn [foldl].
    rewrite (bind_step_expand toS rng _ (dollar_param "1,2,3") eq_refl).
    cbn [acc query value ToString name draws dollar_param].
    change (Str.split "," "1,2,3") with ["1"; "2"; "3"].
    cbn [length]. fold bound.
    etrans.
    - apply (replaceAll_placeholder_subst "a$$" (in_clause bound)
               (in_clause referenced) ["SELECT id FROM t WHERE id IN "; ""]).
      + reflexivity.
      + intros. apply dollar_clause_substitution3.
      + repeat constructor.
    - cbn [String.concat]. by rewrite str_app_nil_r. }
  split_and!; [done|done| |].
  - intros k Hk. by apply (dollar_reference_unbound _ 0 3 0 3).
  - rewrite Hq. intros H%(f_equal String.length).
    rewrite !str_length_app in H. apply Nat.add_cancel_l in H.
    unfold in_clause, placeholders in H. subst bound referenced.
    cbn [synthetic_names fmap list_fmap String.concat] in H.
    rewrite !str_length_app, !length_uniqueSuffix in H. cbn in H. lia.
Qed.

(** C8, as the specification states it, fails for a name with dollars.
    With the expanding NUMBER parameter [a$$] of value ["1"], a value
    without a comma, whatever identifier is drawn, the one bind is added
    under the synthetic name [a$$<suffix>], but [replaceAll] reads the
    two dollars of the clause as one: the one reference of the clause,
    [:a$<suffix>], names no bind of the map, and the SQL is not the SQL
    with the reference to the synthetic name. *)
Theorem dollar_name_single_reference :
  let st := compile toS rng "SELECT id FROM t WHERE id IN :a$$"
              [dollar_param "1"] in
  acc st = {[ "a$$" +:+ uniqueSuffix (rng 0)
              := {| type := DB_NUMBER; val := VNum (Finite false 1 0) |} ]}
  ∧ query st
    = "SELECT id FROM t WHERE id IN "
        +:+ in_clause ["a$" +:+ uniqueSuffix (rng 0)]
  ∧ acc st !! ("a$" +:+ uniqueSuffix (rng 0)) = None
  ∧ query st
    ≠ "SELECT id FROM t WHERE id IN "
        +:+ in_clause ["a$$" +:+ uniqueSuffix (rng 0)].
Proof.
  intros st.
  assert (acc st = {[ "a$$" +:+ uniqueSuffix (rng 0)
            := {| type := DB_NUMBER; val := VNum (Finite false 1 0) |} ]})
    as Hacc.
  { subst st. unfold compile. cbn [foldl].
    rewrite (bind_step_expand toS rng _ (dollar_param "1") eq_refl).
    cbn [acc query value ToString name draws dollar_param].
    change (Str.split "," "1") with ["1"].
    cbn [length synthetic_names zip zip_with].
    unfold insert_all. cbn [foldl fst snd]. by rewrite insert_empty. }
  assert (query st = "SELECT id FROM t WHERE id IN "
                       +:+ in_clause ["a$" +:+ uniqueSuffix (rng 0)]) as Hq.
  { subst st. unfold compile. cbn [foldl].
    rewrite (bind_step_expand toS rng _ (dollar_param "1") eq_refl).
    cbn [acc query value ToString name draws dollar_param].
    change (Str.split "," "1") with ["1"]. cbn [length].
    etrans.
    - apply (replaceAll_placeholder_subst "a$$" _
               (in_clause (synthetic_names rng "a$" 0 1))
               ["SELECT id FROM t WHERE id IN "; ""]).
      + reflexivity.
      + intros. apply dollar_clause_substitution1.
      + repeat constructor.
    - cbn [String.concat synthetic_names]. by rewrite str_app_nil_r. }
  split_and!; [done|done| |].
  - apply (dollar_reference_unbound _ 0 1 0 1).
    + rewrite Hacc. cbn [synthetic_names list_to_set].
      by rewrite dom_singleton_L, (right_id_L ∅ (∪)).
    + cbn [synthetic_names]. apply list_elem_of_here.
  - rewrite Hq. intros H%(f_equal String.length).
    rewrite !str_length_app in H. apply Nat.add_cancel_l in H.
    unfold in_clause, placeholders in H.
    cbn [fmap list_fmap String.concat] in H.
    rewrite !str_length_app, !length_uniqueSuffix in H. cbn in H. lia.
Qed.

End DollarName.

(** ** The bind compiler: token boundaries *)

(** C1.  The rewriting is by substring, not by token: with the parameters
    [cat] (expanded) and [category], the clause for [:cat] also replaces
    the first four characters of [:category], whatever identifiers are
    drawn; the bind [category] is left without a placeholder. *)
Theorem rewriting_cat_corrupts_category (toS : jsnum → string) (rng : nat → N) :
  let st := compile toS rng
              "SELECT * FROM p WHERE c IN :cat AND k = :category" cat_params in
  let clause := in_clause ["cat" +:+ uniqueSuffix (rng 0);
                           "cat" +:+ uniqueSuffix (rng 1)] in
  query st
  = "SELECT * FROM p WHERE c IN " +:+ clause +:+ " AND k = " +:+ clause
      +:+ "egory"
  ∧ is_Some (acc st !! "category")
  ∧ Str.occurs ":category"
      (query (compile toS demo_rng
                "SELECT * FROM p WHERE c IN :cat AND k = :category"
                cat_params)) = false.
Proof.
  intros st clause. split_and!.
  - subst st. unfold compile, cat_params. cbn [foldl].
    rewrite (bind_step_plain toS rng _ category_param eq_refl).
    rewrite (bind_step_expand toS rng _ cat_param eq_refl).
    cbn [query value ToString name draws cat_param].
    change (Str.split "," "1,2") with ["1"; "2"].
    cbn [length synthetic_names]. fold clause.
    apply (replaceAll_placeholder "cat" clause
             ["SELECT * FROM p WHERE c IN "; " AND k = "; "egory"]).
    + reflexivity.
    + apply in_clause_plain.
      repeat constructor; by rewrite mem_app, mem_uniqueSuffix.
    + repeat constructor.
  - subst st. unfold compile, cat_params. cbn [foldl].
    rewrite (bind_step_plain toS rng _ category_param eq_refl).
    cbn [acc name category_param]. rewrite obj_set_ne by done.
    rewrite lookup_insert_eq. by eexists.
  - by vm_compute.
Qed.

(** ** The bind compiler without expansion *)

Section PlainFacts.

Variable toS : jsnum → string.
Variable rng : nat → N.

Lemma plain_binds_cons p ps (m : gmap string BindParameter) :
  plain_binds toS (p :: ps) m
  = plain_binds toS ps (obj_set m (name p) (bind_of toS p (value p))).
Proof. reflexivity. Qed.

Lemma foldl_bind_step_plain ps (st : cstate) :
  Forall (λ p, parseInStatement p = false) ps →
  foldl (bind_step toS rng) st ps
  = {| acc := plain_binds toS ps (acc st); query := query st; draws := draws st |}.
Proof.
  intros Hall. revert st. induction Hall as [|p ps Hp Hall IH]; intros st.
  - by destruct st.
  - cbn [foldl]. by rewrite bind_step_plain, IH, plain_binds_cons.
Qed.

Lemma plain_binds_lookup_notin ps (m : gmap string BindParameter) k :
  k ∉ name <$> ps → plain_binds toS ps m !! k = m !! k.
Proof.
  revert m. induction ps as [|p ps IH]; intros m Hk; [done|].
  rewrite plain_binds_cons.
  rewrite IH by set_solver. apply lookup_obj_set_ne. set_solver.
Qed.

Lemma plain_binds_lookup ps (m : gmap string BindParameter) p :
  NoDup (name <$> ps) → p ∈ ps → name p ≠ "__proto__" →
  plain_binds toS ps m !! name p = Some (bind_of toS p (value p)).
Proof.
  revert m. induction ps as [|q ps IH]; intros m Hnd Hin Hproto.
  { by apply elem_of_nil in Hin. }
  rewrite fmap_cons in Hnd. apply NoDup_cons in Hnd as [Hq Hnd].
  rewrite plain_binds_cons.
  apply elem_of_cons in Hin as [->|Hin].
  - rewrite plain_binds_lookup_notin, obj_set_ne by done.
    apply lookup_insert_eq.
  - by apply IH.
Qed.

Lemma dom_plain_binds ps (m : gmap string BindParameter) :
  Forall (λ p, name p ≠ "__proto__") ps →
  dom (plain_binds toS ps m) = dom m ∪ list_to_set (name <$> ps).
Proof.
  intros Hall. revert m. induction Hall as [|q ps Hq Hall IH]; intros m.
  - simpl. set_solver.
  - rewrite plain_binds_cons, IH, obj_set_ne, dom_insert_L, fmap_cons by done.
    set_solver.
Qed.

Lemma compile_plain sql ps :
  Forall (λ p, parseInStatement p = false) ps →
  compile toS rng sql ps
  = {| acc := plain_binds toS ps ∅; query := sql; draws := 0 |}.
Proof. intros Hall. unfold compile. by rewrite foldl_bind_step_plain. Qed.

(** X20.  When no parameter expands, the names are pairwise distinct and
    none of them is [__proto__], the compiled SQL is the input SQL,
    character for character, and the bind map holds exactly one entry
    per supplied parameter, under the parameter's own name: the numeric
    parse of the value, typed NUMBER, when the declared type is
    ["number"], and the value as a string, typed STRING, when it is
    ["string"]. *)
Theorem compile_without_expansion (sql : string) (ps : list Param) :
  Forall (λ p, parseInStatement p = false) ps →
  NoDup (name <$> ps) →
  Forall (λ p, name p ≠ "__proto__") ps →
  let st := compile toS rng sql ps in
  query st = sql
  ∧ dom (acc st) = list_to_set (name <$> ps)
  ∧ size (acc st) = length ps
  ∧ ∀ p, p ∈ ps →
      (datatype p = "number" →
       acc st !! name p
       = Some {| type := DB_NUMBER; val := VNum (ToNumber (value p)) |})
      ∧ (datatype p = "string" →
         acc st !! name p
         = Some {| type := DB_STRING; val := VStr (ToString toS (value p)) |}).
Proof.
  intros Hall Hnd Hproto st. subst st. rewrite compile_plain by done.
  cbn [query acc].
  assert (dom (plain_binds toS ps ∅) = list_to_set (name <$> ps)) as Hdom.
  { rewrite dom_plain_binds, dom_empty_L by done. set_solver. }
  split_and!; [done|done| |].
  - rewrite <-size_dom, Hdom, size_list_to_set by done.
    by rewrite length_fmap.
  - intros p Hp. rewrite plain_binds_lookup; [|done|done|].
    + unfold bind_of, dataType, coerce, is_number.
      split; intros ->; reflexivity.
    + by eapply Forall_forall in Hproto.
Qed.

(** C3.  A parameter named [__proto__] that does not expand adds no
    entry to the bind map: its bind becomes the prototype of the bind
    object.  Alone, it leaves the map empty; after other parameters, it
    leaves their map as it is.  The supplied parameter has then no entry
    under its name. *)
Theorem proto_parameter_is_not_bound
    (sql : string) (ps : list Param) (v : jsvalue) (dt : string) :
  let p := {| name := "__proto__"; value := v; datatype := dt;
              parseInStatement := false |} in
  acc (compile toS rng sql [p]) = ∅
  ∧ acc (compile toS rng sql [p]) !! name p = None
  ∧ size (acc (compile toS rng sql [p])) = 0
  ∧ query (compile toS rng sql [p]) = sql
  ∧ acc (compile toS rng sql (ps ++ [p])) = acc (compile toS rng sql ps).
Proof.
  intros p. split_and!; try done.
  unfold compile. rewrite foldl_app. cbn [foldl].
  by rewrite bind_step_plain.
Qed.

End PlainFacts.

Lemma compile_without_expansion_witness :
  let sql := "SELECT id FROM t WHERE id = :id AND label = :label" in
  let st := compile sample_toString demo_rng sql plain_params in
  (Forall (λ p, parseInStatement p = false) plain_params
   ∧ NoDup (name <$> plain_params)
   ∧ Forall (λ p, name p ≠ "__proto__") plain_params)
  ∧ query st = sql
  ∧ size (acc st) = 2
  ∧ acc st !! "id"
    = Some {| type := DB_NUMBER; val := VNum (Finite false 42 0) |}
  ∧ acc st !! "label" = Some {| type := DB_STRING; val := VStr "42" |}.
Proof.
  intros sql st.
  assert (Forall (λ p, parseInStatement p = false) plain_params) as H1
    by (repeat constructor).
  assert (NoDup (name <$> plain_params)) as H2 by by_compute.
  assert (Forall (λ p, name p ≠ "__proto__") plain_params) as H3
    by (repeat constructor; by intros [=]).
  split; [done|].
  destruct (compile_without_expansion sample_toString demo_rng sql
              plain_params H1 H2 H3) as (Hq & _ & Hsize & Hlook).
  split; [exact Hq|]. split; [exact Hsize|]. split.
  - refine (proj1 (Hlook {| name := "id"; value := VStr "42";
                            datatype := "number";
                            parseInStatement := false |} _) eq_refl).
    apply list_elem_of_here.
  - refine (proj2 (Hlook {| name := "label"; value := VStr "42";
                            datatype := "string";
                            parseInStatement := false |} _) eq_refl).
    apply list_elem_of_further, list_elem_of_here.
Defined.

(** ** Declared types *)

Section TypeFacts.

Variable toS : jsnum → string.
Variable rng : nat → N.

Lemma insert_all_lookup_Some b entries (m : gmap string BindParameter) k x :
  insert_all b entries m !! k = Some x →
  m !! k = Some x ∨ ∃ v, (k, v) ∈ entries ∧ x = b v.
Proof.
  revert m. induction entries as [|[k' v'] entries IH]; intros m H; [by left|].
  rewrite insert_all_cons in H. apply IH in H as [H|(v & Hin & ->)].
  - destruct (decide (k' = k)) as [->|Hne].
    + rewrite lookup_insert_eq in H. injection H as <-.
      right. exists v'. split; [apply list_elem_of_here|done].
    + rewrite lookup_insert_ne in H by done. by left.
  - right. exists v. split; [by apply list_elem_of_further|done].
Qed.

(** Every key of the entries is bound, to the value of one of them. *)
Lemma insert_all_lookup_in b entries (m : gmap string BindParameter) k :
  k ∈ entries.*1 →
  ∃ v, (k, v) ∈ entries ∧ insert_all b entries m !! k = Some (b v).
Proof.
  revert m. induction entries as [|[k' v'] entries IH]; intros m Hk.
  { by apply elem_of_nil in Hk. }
  rewrite insert_all_cons.
  destruct (decide (k ∈ entries.*1)) as [Hin|Hout].
  - destruct (IH (<[k' := b v']> m) Hin) as (v & Hv & Hl).
    exists v. split; [by apply list_elem_of_further|done].
  - rewrite fmap_cons in Hk. apply elem_of_cons in Hk as [->|Hk]; [|done].
    exists v'. split; [apply list_elem_of_here|].
    rewrite insert_all_lookup_notin by done. apply lookup_insert_eq.
Qed.

(** C10.  A declared type other than ["number"], recognized or not, is
    handled as STRING.  The entry the callback builds is tagged STRING
    and holds the text converted to a string.  Without expansion that
    entry, for the raw value, is what the callback assigns under the
    parameter's name, where it is then found (the name [__proto__]
    apart, which is no property).  With expansion every synthetic name
    is bound to such an entry for a segment of the value, the segment of
    its own rank when the synthetic names are pairwise distinct, and no
    other entry is added.  The callback has no error branch: it returns
    the next state for every declared type. *)
Theorem unknown_datatype_binds_string (st : cstate) (p : Param) :
  datatype p ≠ "number" →
  (∀ v, bind_of toS p v
        = {| type := DB_STRING; val := VStr (ToString toS v) |})
  ∧ (parseInStatement p = false →
     bind_step toS rng st p
     = {| acc := obj_set (acc st) (name p)
                   {| type := DB_STRING;
                      val := VStr (ToString toS (value p)) |};
          query := query st;
          draws := draws st |}
     ∧ (name p ≠ "__proto__" →
        acc (bind_step toS rng st p) !! name p
        = Some {| type := DB_STRING;
                  val := VStr (ToString toS (value p)) |}))
  ∧ (parseInStatement p = true →
     let vals := Str.split "," (ToString toS (value p)) in
     let names := synthetic_names rng (name p) (draws st) (length vals) in
     names ≠ []
     ∧ (∀ k, k ∈ names →
          ∃ v, v ∈ vals
               ∧ acc (bind_step toS rng st p) !! k
                 = Some {| type := DB_STRING; val := VStr v |})
     ∧ (NoDup names →
        ∀ i k v, names !! i = Some k → vals !! i = Some v →
          acc (bind_step toS rng st p) !! k
          = Some {| type := DB_STRING; val := VStr v |})
     ∧ (∀ k b, acc (bind_step toS rng st p) !! k = Some b →
          acc st !! k = Some b
          ∨ (type b = DB_STRING ∧ ∃ v, v ∈ vals ∧ val b = VStr v))).
Proof.
  intros Hty.
  assert (String.eqb (datatype p) "number" = false) as E
    by (by apply String.eqb_neq).
  assert (∀ v, bind_of toS p v
               = {| type := DB_STRING; val := VStr (ToString toS v) |}) as Hb.
  { intros v. unfold bind_of, dataType, coerce, is_number. by rewrite E. }
  split; [exact Hb|]. split; intros Hp.
  - rewrite bind_step_plain, Hb by done. split; [done|].
    intros Hproto. cbn [acc]. rewrite obj_set_ne by done.
    apply lookup_insert_eq.
  - intros vals names.
    assert ((zip names vals).*1 = names) as Hfst.
    { apply fst_zip. subst names. rewrite length_synthetic_names. lia. }
    rewrite bind_step_expand by done. fold vals names. cbn [acc].
    split_and!.
    + subst names. pose proof (split_nonempty "," (ToString toS (value p))).
      fold vals in H. by destruct vals.
    + intros k Hk.
      destruct (insert_all_lookup_in (λ v, bind_of toS p (VStr v))
                  (zip names vals) (acc st) k) as (v & Hin & Hl).
      { by rewrite Hfst. }
      exists v. split; [by apply elem_of_zip_r in Hin|].
      by rewrite Hl, Hb.
    + intros Hnd i k v Hk Hv.
      rewrite (insert_all_lookup _ _ _ k v); rewrite ?Hfst; [by rewrite Hb|done|].
      apply list_elem_of_lookup. exists i. apply lookup_zip_with_Some; eauto.
    + intros k b [H|(v & Hin & ->)]%insert_all_lookup_Some; [by left|].
      right. rewrite Hb. split; [done|]. exists v. split; [|done].
      by apply elem_of_zip_r in Hin.
Qed.

End TypeFacts.

(** ** Running the node *)

Section ExecuteFacts.

Variable toS : jsnum → string.
Variable rng : nat → N.

(** The run of the node when the host supplies a connection and the
    four parameters. *)
Lemma execute_run h credentials c sql values includeMetadata rowLimit :
  getCredentials h = Ok credentials →
  getConnection h credentials = Ok (Some c) →
  param_query h = Ok sql →
  param_params h = Ok values →
  param_includeMetadata h = Ok includeMetadata →
  param_rowLimit h = Ok rowLimit →
  let st := compile toS rng sql (default [] values) in
  let q := applyLimit toS (query st) rowLimit in
  let opts := execute_options includeMetadata in
  Eff.run (execute toS rng h)
  = ([EvExecute q (acc st) opts; EvClose]
       ++ match conn_close c with
          | Some closeErr => [EvConsoleError closeErr]
          | None => []
          end,
     match conn_execute c q (acc st) opts with
     | Ok result => Ok [project result includeMetadata []]
     | Throw error => Throw (NodeOperationError error)
     end).
Proof.
  intros H1 H2 H3 H4 H5 H6 st q opts. run_execute.
  rewrite H1, H2, H3, H4, H5, H6. cbn [app].
  fold st. fold q. unfold execute_options in opts. fold opts.
  destruct (conn_execute c q (acc st) opts);
    destruct (conn_close c); reflexivity.
Qed.

Lemma execute_closes_once h credentials c :
  getCredentials h = Ok credentials →
  getConnection h credentials = Ok (Some c) →
  closes (Eff.run (execute toS rng h)).1 = 1.
Proof.
  intros H1 H2. run_execute. rewrite H1, H2.
  destruct (param_query h); [|by destruct (conn_close c)].
  destruct (param_params h); [|by destruct (conn_close c)].
  destruct (param_includeMetadata h); [|by destruct (conn_close c)].
  destruct (param_rowLimit h); [|by destruct (conn_close c)].
  cbn [app].
  destruct (conn_execute c _ _ _); by destruct (conn_close c).
Qed.

Lemma execute_outcome_quiet h :
  (Eff.run (execute toS rng h)).2
  = (Eff.run (execute toS rng (with_quiet_close h))).2.
Proof.
  run_execute. cbn [with_quiet_close getCredentials getConnection
    param_query param_params param_includeMetadata param_rowLimit].
  destruct (getCredentials h) as [credentials|]; [|done].
  destruct (getConnection h credentials) as [[c|]|]; [| |done].
  - cbn [fmap option_fmap option_map quiet conn_close conn_execute].
    destruct (param_query h); [|by destruct (conn_close c)].
    destruct (param_params h); [|by destruct (conn_close c)].
    destruct (param_includeMetadata h); [|by destruct (conn_close c)].
    destruct (param_rowLimit h); [|by destruct (conn_close c)].
    cbn [app].
    destruct (conn_execute c _ _ _); by destruct (conn_close c).
  - cbn [fmap option_fmap option_map].
    destruct (param_query h); [|done].
    destruct (param_params h); [|done].
    destruct (param_includeMetadata h); [|done].
    by destruct (param_rowLimit h).
Qed.

End ExecuteFacts.

(** ** Malformed numbers *)

(** C7, as the specification states it, fails: with the NUMBER parameter
    [n] of value ["abc"] nothing is detected; the statement goes to the
    driver with [n] bound to NaN and the node returns the rows. *)
Lemma non_numeric_number_reaches_driver :
  Eff.run (execute sample_toString demo_rng
             (sample_host (accepting None) "SELECT :n AS n FROM dual"
                [nan_param] false 0))
  = ([EvExecute "SELECT :n AS n FROM dual"
        {[ "n" := {| type := DB_NUMBER; val := VNum NaN |} ]}
        (execute_options false);
      EvClose],
     Ok [[ {| json := RowObject [("N", SNull)] |} ]]).
Proof. by_compute. Qed.

Lemma unknown_datatype_binds_string_witness :
  let p := {| name := "d"; value := VStr "2024-01-01,2024-06-30";
              datatype := "date"; parseInStatement := true |} in
  let q := {| name := "d"; value := VStr "2024-01-01"; datatype := "date";
              parseInStatement := false |} in
  let st := start "SELECT 1 FROM t WHERE d IN :d" in
  (datatype p ≠ "number" ∧ datatype q ≠ "number"
   ∧ NoDup (synthetic_names demo_rng "d" 0 2))
  ∧ acc (bind_step sample_toString demo_rng st p)
      !! "d123e4567_e89b_42d3_a456_426614174001"
    = Some {| type := DB_STRING; val := VStr "2024-06-30" |}
  ∧ acc (bind_step sample_toString demo_rng st q) !! "d"
    = Some {| type := DB_STRING; val := VStr "2024-01-01" |}.
Proof.
  intros p q st.
  assert (datatype p ≠ "number") as Hp by (by intros [=]).
  assert (datatype q ≠ "number") as Hq by (by intros [=]).
  assert (NoDup (synthetic_names demo_rng "d" 0 2)) as Hnd by by_compute.
  split; [done|]. split.
  - destruct (proj2 (proj2 (unknown_datatype_binds_string sample_toString
                              demo_rng st p Hp)) eq_refl)
      as (_ & _ & Hexact & _).
    exact (Hexact Hnd 1 _ "2024-06-30" eq_refl eq_refl).
  - destruct (proj1 (proj2 (unknown_datatype_binds_string sample_toString
                              demo_rng st q Hq)) eq_refl) as [_ Hl].
    apply Hl. by intros [=].
Defined.

(** ** Releasing the connection *)

(** C5.  Once the host has handed out a connection, [close()] is called
    exactly once on every exit path: whether a node parameter, the
    execution or the closing itself fails or not.  A failure of
    [close()] does not change the outcome, which is that of the same run
    with a [close()] that succeeds: the items of a successful execution
    are returned, and the error of a failed execution is raised, wrapped
    in a NodeOperationError; the failure of [close()] is written to the
    console. *)
Theorem connection_closed_exactly_once
    (toS : jsnum → string) (rng : nat → N) (h : Host)
    (credentials : Credentials) (c : Connection) :
  getCredentials h = Ok credentials →
  getConnection h credentials = Ok (Some c) →
  closes (Eff.run (execute toS rng h)).1 = 1
  ∧ (Eff.run (execute toS rng h)).2
    = (Eff.run (execute toS rng (with_quiet_close h))).2
  ∧ ∀ sql values includeMetadata rowLimit,
      param_query h = Ok sql →
      param_params h = Ok values →
      param_includeMetadata h = Ok includeMetadata →
      param_rowLimit h = Ok rowLimit →
      let st := compile toS rng sql (default [] values) in
      let q := applyLimit toS (query st) rowLimit in
      let opts := execute_options includeMetadata in
      (∀ result, conn_execute c q (acc st) opts = Ok result →
         (Eff.run (execute toS rng h)).2
         = Ok [project result includeMetadata []])
      ∧ (∀ error, conn_execute c q (acc st) opts = Throw error →
           (Eff.run (execute toS rng h)).2
           = Throw (NodeOperationError error))
      ∧ (∀ closeErr, conn_close c = Some closeErr →
           EvConsoleError closeErr ∈ (Eff.run (execute toS rng h)).1).
Proof.
  intros H1 H2. split_and!.
  - by eapply execute_closes_once.
  - apply execute_outcome_quiet.
  - intros sql values includeMetadata rowLimit H3 H4 H5 H6 st q opts.
    rewrite (execute_run toS rng h credentials c sql values includeMetadata
               rowLimit H1 H2 H3 H4 H5 H6).
    fold st q opts. cbn [fst snd]. split_and!.
    + by intros result ->.
    + by intros error ->.
    + intros closeErr ->. set_solver.
Qed.

Lemma connection_closed_exactly_once_witness :
  let close_error := Some (Thrown "NJS-003") in
  let h := sample_host (rejecting close_error) "SELECT 1 FROM nowhere" []
             false 0 in
  (getCredentials h = Ok sample_credentials
   ∧ getConnection h sample_credentials = Ok (Some (rejecting close_error)))
  ∧ closes (Eff.run (execute sample_toString demo_rng h)).1 = 1
  ∧ (Eff.run (execute sample_toString demo_rng h)).2
    = Throw (NodeOperationError (Thrown "ORA-00942")).
Proof.
  intros close_error h. split; [done|].
  destruct (connection_closed_exactly_once sample_toString demo_rng h
              sample_credentials (rejecting close_error) eq_refl eq_refl)
    as (Hclose & _ & Hrun).
  split; [exact Hclose|].
  destruct (Hrun "SELECT 1 FROM nowhere" (Some []) false 0%Z
              eq_refl eq_refl eq_refl eq_refl) as (_ & Hthrow & _).
  exact (Hthrow (Thrown "ORA-00942") eq_refl).
Defined.

(** ** The result projector *)

Lemma foldl_push {A B} (f : A → B) (rows : list A) (items : list B) :
  foldl (λ items row, items ++ [f row]) items rows = items ++ (f <$> rows).
Proof.
  revert items. induction rows as [|row rows IH]; intros items; simpl.
  - by rewrite app_nil_r.
  - by rewrite IH, <-app_assoc.
Qed.

(** C4.  With [includeMetadata] the projector emits exactly one item,
    whose payload is the whole result of the driver, for any number of
    rows, zero included.  Without it the projector emits one item per
    returned row, in order, whose payload is the row; no rows, no
    items. *)
Theorem project_items (result : Result) :
  project result true [] = [{| json := ResultObject result |}]
  ∧ project result false []
    = (λ row, {| json := RowObject row |}) <$> default [] (rows result)
  ∧ length (project result false []) = length (default [] (rows result))
  ∧ (∀ md ra,
       project {| rows := Some []; metaData := md; rowsAffected := ra |}
         false [] = []
       ∧ project {| rows := None; metaData := md; rowsAffected := ra |}
           false [] = []
       ∧ length (project {| rows := Some []; metaData := md;
                            rowsAffected := ra |} true []) = 1).
Proof.
  split_and!; try done.
  - unfold project. by rewrite foldl_push.
  - unfold project. rewrite foldl_push. cbn [app]. by rewrite length_fmap.
Qed.

(** ** The limit injector *)

(** C6.  With [rowLimit = 0] the SQL is returned unchanged.  With a
    positive [rowLimit] the SQL is returned followed by one space and the
    clause [FETCH FIRST N ROWS ONLY], whatever the SQL ends with and
    whether it already has such a clause; [N] is the row limit as a
    template literal prints it, which up to 2^53, where every integer is
    a double, is its plain decimal text. *)
Theorem applyLimit_appends_clause (toS : jsnum → string) (sql : string) :
  applyLimit toS sql 0 = sql
  ∧ (∀ N : positive,
       applyLimit toS sql (Z.pos N)
       = sql +:+ " " +:+ "FETCH FIRST " +:+ int_toString toS (Z.pos N)
           +:+ " ROWS ONLY")
  ∧ (∀ N : Z, (0 < N ≤ 2 ^ 53)%Z →
       applyLimit toS sql N
       = sql +:+ " " +:+ "FETCH FIRST " +:+ pretty N +:+ " ROWS ONLY").
Proof.
  split_and!.
  - reflexivity.
  - intros N. reflexivity.
  - intros N [Hpos Hle]. unfold applyLimit, int_toString.
    destruct (Z.ltb_spec 0 N) as [_|?]; [|lia].
    destruct (Z.leb_spec (Z.abs N) (2 ^ 53)) as [_|?]; [done|lia].
Qed.

Lemma applyLimit_appends_clause_witness :
  (0 < 100 ≤ 2 ^ 53)%Z
  ∧ applyLimit sample_toString "SELECT 1 FROM t FETCH FIRST 5 ROWS ONLY;" 100
    = "SELECT 1 FROM t FETCH FIRST 5 ROWS ONLY; FETCH FIRST 100 ROWS ONLY".
Proof.
  assert (0 < 100 ≤ 2 ^ 53)%Z as H by lia.
  split; [exact H|].
  exact (proj2 (proj2 (applyLimit_appends_clause sample_toString
                         "SELECT 1 FROM t FETCH FIRST 5 ROWS ONLY;"))
           100%Z H).
Defined.

(** ** Synthetic names and draws *)

Section SuffixInjective.

Local Open Scope N_scope.

Lemma str_app_inj_length (a a' b b' : string) :
  String.length a = String.length a' →
  a +:+ b = a' +:+ b' → a = a' ∧ b = b'.
Proof.
  revert a'. induction a as [|c a IH]; intros [|c' a'] Hlen H;
    try discriminate; [done|].
  rewrite !str_app_cons in H. injection H as -> H.
  injection Hlen as Hlen. by destruct (IH _ Hlen H) as [-> ->].
Qed.

Lemma hex_digit_inj u v :
  UUID.hex_digit u = UUID.hex_digit v → u mod 16 = v mod 16.
Proof.
  unfold UUID.hex_digit. intros H. apply N2Nat.inj.
  assert (N.to_nat (u mod 16) < 16)%nat as Hu
    by (pose proof (N.mod_upper_bound u 16); lia).
  assert (N.to_nat (v mod 16) < 16)%nat as Hv
    by (pose proof (N.mod_upper_bound v 16); lia).
  revert H Hu Hv.
  generalize (N.to_nat (u mod 16)), (N.to_nat (v mod 16)). intros a b.
  do 16 (destruct a as [|a]; [do 16 (destruct b as [|b]; [done|]); lia|]).
  lia.
Qed.

Lemma hex_inj k u v :
  UUID.hex k u = UUID.hex k v → u mod 16 ^ N.of_nat k = v mod 16 ^ N.of_nat k.
Proof.
  revert u v. induction k as [|k IH]; intros u v H.
  - by rewrite !N.mod_1_r.
  - cbn [UUID.hex] in H.
    apply str_app_inj_length in H as [H1 H2]; [|by rewrite !length_hex].
    injection H2 as H2%hex_digit_inj. apply IH in H1.
    rewrite Nat2N.inj_succ, N.pow_succ_r', !N.Div0.mod_mul_r. congruence.
Qed.

Lemma group_bits u v s w n :
  (N.shiftr u s) mod 2 ^ w = (N.shiftr v s) mod 2 ^ w →
  s ≤ n < s + w → N.testbit u n = N.testbit v n.
Proof.
  intros H Hn.
  apply (f_equal (λ x, N.testbit x (n - s))) in H.
  rewrite !N.mod_pow2_bits_low, !N.shiftr_spec' in H by lia.
  by replace (n - s + s) with n in H by lia.
Qed.

(** Equal suffixes come from equal 128-bit values. *)
Lemma uniqueSuffix_inj u v :
  uniqueSuffix u = uniqueSuffix v → u mod 2 ^ 128 = v mod 2 ^ 128.
Proof.
  rewrite !uniqueSuffix_groups. cbn [String.concat]. intros H.
  apply str_app_inj_length in H as [H1 H]; [|by rewrite !length_hex].
  apply String.app_inj in H.
  apply str_app_inj_length in H as [H2 H]; [|by rewrite !length_hex].
  apply String.app_inj in H.
  apply str_app_inj_length in H as [H3 H]; [|by rewrite !length_hex].
  apply String.app_inj in H.
  apply str_app_inj_length in H as [H4 H]; [|by rewrite !length_hex].
  apply String.app_inj in H as H5.
  apply hex_inj in H1, H2, H3, H4, H5.
  change (16 ^ N.of_nat 8) with (2 ^ 32) in H1.
  change (16 ^ N.of_nat 4) with (2 ^ 16) in H2, H3, H4.
  change (16 ^ N.of_nat 12) with (2 ^ 48) in H5.
  rewrite <-(N.shiftr_0_r u), <-(N.shiftr_0_r v) in H5.
  apply N.bits_inj. intros n.
  destruct (N.lt_ge_cases n 128) as [Hn|Hn].
  - rewrite !N.mod_pow2_bits_low by done.
    destruct (N.lt_ge_cases n 48); [by eapply (group_bits u v 0 48); [|lia]|].
    destruct (N.lt_ge_cases n 64); [by eapply (group_bits u v 48 16); [|lia]|].
    destruct (N.lt_ge_cases n 80); [by eapply (group_bits u v 64 16); [|lia]|].
    destruct (N.lt_ge_cases n 96); [by eapply (group_bits u v 80 16); [|lia]|].
    by eapply (group_bits u v 96 32); [|lia].
  - by rewrite !N.mod_pow2_bits_high.
Qed.

(** Two synthetic names that coincide come from the same 128 bits,
    whatever the names they extend. *)
Lemma synthetic_name_inj nm nm' u v :
  nm +:+ uniqueSuffix u = nm' +:+ uniqueSuffix v →
  u mod 2 ^ 128 = v mod 2 ^ 128.
Proof.
  intros H. apply uniqueSuffix_inj.
  assert (String.length nm = String.length nm') as Hlen.
  { apply (f_equal String.length) in H.
    rewrite !str_length_app, !length_uniqueSuffix in H. lia. }
  by destruct (str_app_inj_length _ _ _ _ Hlen H).
Qed.

End SuffixInjective.

(** * Further properties of the node *)

(** ** Runs that do not reach the driver *)

(** X1.  When the credentials or the connection cannot be obtained, the
    node raises that very error, not wrapped, and calls neither
    [execute()] nor [close()]. *)
Theorem acquisition_failure_is_raised_unwrapped
    (toS : jsnum → string) (rng : nat → N) (h : Host) (e : jserror) :
  getCredentials h = Throw e
  ∨ (∃ credentials, getCredentials h = Ok credentials
                    ∧ getConnection h credentials = Throw e) →
  Eff.run (execute toS rng h) = ([], Throw e).
Proof.
  intros [H|(credentials & H1 & H2)]; run_execute.
  - by rewrite H.
  - by rewrite H1, H2.
Qed.

Lemma acquisition_failure_is_raised_unwrapped_witness :
  (getCredentials (unreachable (Thrown "ORA-12541")) = Throw (Thrown "ORA-12541")
   ∨ ∃ credentials,
       getCredentials (unreachable (Thrown "ORA-12541")) = Ok credentials
       ∧ getConnection (unreachable (Thrown "ORA-12541")) credentials
         = Throw (Thrown "ORA-12541"))
  ∧ Eff.run (execute sample_toString demo_rng (unreachable (Thrown "ORA-12541")))
    = ([], Throw (Thrown "ORA-12541")).
Proof.
  assert (getCredentials (unreachable (Thrown "ORA-12541"))
            = Throw (Thrown "ORA-12541")
          ∨ ∃ credentials,
              getCredentials (unreachable (Thrown "ORA-12541")) = Ok credentials
              ∧ getConnection (unreachable (Thrown "ORA-12541")) credentials
                = Throw (Thrown "ORA-12541")) as H
    by (right; by exists sample_credentials).
  split; [exact H|].
  exact (acquisition_failure_is_raised_unwrapped sample_toString demo_rng
           (unreachable (Thrown "ORA-12541")) (Thrown "ORA-12541") H).
Defined.

(** X2.  With a falsy connection nothing is called on it, [close()]
    included, and the node raises a NodeOperationError, never items. *)
Theorem falsy_connection_is_never_closed
    (toS : jsnum → string) (rng : nat → N) (h : Host)
    (credentials : Credentials) :
  getCredentials h = Ok credentials →
  getConnection h credentials = Ok None →
  (Eff.run (execute toS rng h)).1 = []
  ∧ ∃ e, (Eff.run (execute toS rng h)).2 = Throw (NodeOperationError e).
Proof.
  intros H1 H2. run_execute. rewrite H1, H2.
  destruct (param_query h); [|by eauto].
  destruct (param_params h); [|by eauto].
  destruct (param_includeMetadata h); [|by eauto].
  destruct (param_rowLimit h); by eauto.
Qed.

Lemma falsy_connection_is_never_closed_witness :
  (getCredentials no_connection = Ok sample_credentials
   ∧ getConnection no_connection sample_credentials = Ok None)
  ∧ (Eff.run (execute sample_toString demo_rng no_connection)).1 = [].
Proof.
  split; [done|].
  exact (proj1 (falsy_connection_is_never_closed sample_toString demo_rng
                  no_connection sample_credentials eq_refl eq_refl)).
Defined.

(** X3.  When one of the four node parameters cannot be read, the driver
    is not called: the connection is only closed, and the node raises the
    error of the first unreadable parameter, wrapped in a
    NodeOperationError. *)
Theorem unreadable_parameter_skips_the_driver
    (toS : jsnum → string) (rng : nat → N) (h : Host)
    (credentials : Credentials) (c : Connection) (e : jserror) :
  getCredentials h = Ok credentials →
  getConnection h credentials = Ok (Some c) →
  first_parameter_error h = Some e →
  Eff.run (execute toS rng h) = (close_log c, Throw (NodeOperationError e)).
Proof.
  intros H1 H2 H3. unfold first_parameter_error in H3. run_execute.
  rewrite H1, H2. unfold close_log.
  destruct (param_query h); [|injection H3 as ->; by destruct (conn_close c)].
  destruct (param_params h); [|injection H3 as ->; by destruct (conn_close c)].
  destruct (param_includeMetadata h);
    [|injection H3 as ->; by destruct (conn_close c)].
  destruct (param_rowLimit h); [done|].
  injection H3 as ->. by destruct (conn_close c).
Qed.

Lemma unreadable_parameter_skips_the_driver_witness :
  let h := unreadable_query (accepting None) (Thrown "no query") in
  (getCredentials h = Ok sample_credentials
   ∧ getConnection h sample_credentials = Ok (Some (accepting None))
   ∧ first_parameter_error h = Some (Thrown "no query"))
  ∧ Eff.run (execute sample_toString demo_rng h)
    = ([EvClose], Throw (NodeOperationError (Thrown "no query"))).
Proof.
  intros h. split; [done|].
  exact (unreadable_parameter_skips_the_driver sample_toString demo_rng h
           sample_credentials (accepting None) (Thrown "no query")
           eq_refl eq_refl eq_refl).
Defined.

(** ** The call to the driver *)

Section DriverCall.

Variable toS : jsnum → string.
Variable rng : nat → N.

(** The log of a run has one of three shapes. *)
Lemma execute_log_shapes h :
  (Eff.run (execute toS rng h)).1 = []
  ∨ (∃ credentials c,
       getCredentials h = Ok credentials
       ∧ getConnection h credentials = Ok (Some c)
       ∧ (Eff.run (execute toS rng h)).1 = close_log c)
  ∨ (∃ credentials c sql values includeMetadata rowLimit,
       getCredentials h = Ok credentials
       ∧ getConnection h credentials = Ok (Some c)
       ∧ param_query h = Ok sql
       ∧ param_params h = Ok values
       ∧ param_includeMetadata h = Ok includeMetadata
       ∧ param_rowLimit h = Ok rowLimit
       ∧ (Eff.run (execute toS rng h)).1
         = EvExecute
             (applyLimit toS
                (query (compile toS rng sql (default [] values))) rowLimit)
             (acc (compile toS rng sql (default [] values)))
             (execute_options includeMetadata)
           :: close_log c).
Proof.
  destruct (getCredentials h) as [credentials|e] eqn:H1.
  2:{ left. run_execute. by rewrite H1. }
  destruct (getConnection h credentials) as [[c|]|e] eqn:H2.
  3:{ left. run_execute. by rewrite H1, H2. }
  2:{ left. run_execute. rewrite H1, H2.
      destruct (param_query h); [|done].
      destruct (param_params h); [|done].
      destruct (param_includeMetadata h); [|done].
      by destruct (param_rowLimit h). }
  destruct (param_query h) as [sql|] eqn:H4.
  2:{ right. left. exists credentials, c. split_and!; [done..|].
      run_execute. rewrite H1, H2, H4. unfold close_log.
      by destruct (conn_close c). }
  destruct (param_params h) as [values|] eqn:H5.
  2:{ right. left. exists credentials, c. split_and!; [done..|].
      run_execute. rewrite H1, H2, H4, H5. unfold close_log.
      by destruct (conn_close c). }
  destruct (param_includeMetadata h) as [includeMetadata|] eqn:H6.
  2:{ right. left. exists credentials, c. split_and!; [done..|].
      run_execute. rewrite H1, H2, H4, H5, H6. unfold close_log.
      by destruct (conn_close c). }
  destruct (param_rowLimit h) as [rowLimit|] eqn:H7.
  2:{ right. left. exists credentials, c. split_and!; [done..|].
      run_execute. rewrite H1, H2, H4, H5, H6, H7. unfold close_log.
      by destruct (conn_close c). }
  right. right.
  exists credentials, c, sql, values, includeMetadata, rowLimit.
  split_and!; [done..|].
  by rewrite (execute_run toS rng h credentials c sql values
                includeMetadata rowLimit).
Qed.

End DriverCall.

Lemma not_execute_in_close_log c sql binds opts :
  EvExecute sql binds opts ∉ close_log c.
Proof.
  unfold close_log. destruct (conn_close c); set_solver.
Qed.

(** X4.  In every run the driver is called at most once, and always in
    the same way: with the compiled SQL after the limit injector, the
    compiled bind map, rows as objects, auto-commit on, and extended
    metadata exactly when [includeMetadata] is set. *)
Theorem driver_is_called_once_with_autocommit
    (toS : jsnum → string) (rng : nat → N) (h : Host) :
  executes (Eff.run (execute toS rng h)).1 ≤ 1
  ∧ ∀ sent binds opts,
      EvExecute sent binds opts ∈ (Eff.run (execute toS rng h)).1 →
      autoCommit opts = true
      ∧ outFormat opts = OUT_FORMAT_OBJECT
      ∧ param_includeMetadata h = Ok (extendedMetaData opts)
      ∧ ∃ sql values rowLimit,
          param_query h = Ok sql
          ∧ param_params h = Ok values
          ∧ param_rowLimit h = Ok rowLimit
          ∧ sent = applyLimit toS
                     (query (compile toS rng sql (default [] values))) rowLimit
          ∧ binds = acc (compile toS rng sql (default [] values)).
Proof.
  destruct (execute_log_shapes toS rng h)
    as [->|[(credentials & c & _ & _ & ->)
           |(credentials & c & sql & values & includeMetadata & rowLimit
             & _ & _ & H3 & H4 & H5 & H6 & ->)]].
  - split; [unfold executes; simpl; lia|].
    intros ??? H. by apply elem_of_nil in H.
  - split.
    + unfold executes, close_log. destruct (conn_close c); simpl; lia.
    + intros ??? H. by apply not_execute_in_close_log in H.
  - split.
    + unfold executes, close_log. destruct (conn_close c); simpl; lia.
    + intros sent binds opts [H|H]%elem_of_cons.
      * injection H as -> -> ->. split_and!; [done..|].
        by exists sql, values, rowLimit.
      * by apply not_execute_in_close_log in H.
Qed.

Lemma driver_is_called_once_with_autocommit_witness :
  let st := compile sample_toString demo_rng
              "SELECT id FROM t WHERE id IN :ids" [ids_param] in
  let sent := applyLimit sample_toString (query st) 100 in
  EvExecute sent (acc st) (execute_options true)
    ∈ (Eff.run (execute sample_toString demo_rng
                  (ids_host (accepting None)))).1
  ∧ autoCommit (execute_options true) = true
  ∧ param_includeMetadata (ids_host (accepting None)) = Ok true.
Proof.
  intros st sent.
  assert (EvExecute sent (acc st) (execute_options true)
            ∈ (Eff.run (execute sample_toString demo_rng
                          (ids_host (accepting None)))).1) as H
    by by_compute.
  split; [exact H|].
  destruct (proj2 (driver_is_called_once_with_autocommit sample_toString
                     demo_rng (ids_host (accepting None)))
              sent (acc st) (execute_options true) H) as (H1 & _ & H3 & _).
  exact (conj H1 H3).
Defined.

(** X5.  [close()] is the last call made to the connection: [execute()]
    is never called after it.  The console receives an error exactly
    when [close()] fails, and it is the error of [close()]. *)
Theorem close_is_the_last_call
    (toS : jsnum → string) (rng : nat → N) (h : Host) :
  (∀ i j sent binds opts,
     (Eff.run (execute toS rng h)).1 !! i = Some EvClose →
     (Eff.run (execute toS rng h)).1 !! j = Some (EvExecute sent binds opts) →
     j < i)
  ∧ ∀ closeErr,
      EvConsoleError closeErr ∈ (Eff.run (execute toS rng h)).1
      ↔ ∃ credentials c,
          getCredentials h = Ok credentials
          ∧ getConnection h credentials = Ok (Some c)
          ∧ conn_close c = Some closeErr.
Proof.
  destruct (getCredentials h) as [credentials|e] eqn:H1.
  2:{ assert ((Eff.run (execute toS rng h)).1 = []) as ->
        by (run_execute; by rewrite H1).
      split; [done|]. intros closeErr. split.
      - intros H. by apply elem_of_nil in H.
      - by intros (? & ? & ? & _). }
  destruct (getConnection h credentials) as [[c|]|e] eqn:H2.
  - assert (∀ closeErr, EvConsoleError closeErr ∈ close_log c
                        ↔ conn_close c = Some closeErr) as Hclose.
    { intros closeErr. unfold close_log.
      destruct (conn_close c); set_solver. }
    destruct (execute_log_shapes toS rng h)
      as [Hlog|[(credentials' & c' & H1' & H2' & Hlog)
               |(credentials' & c' & sql & values & includeMetadata
                 & rowLimit & H1' & H2' & _ & _ & _ & _ & Hlog)]].
    + exfalso. revert Hlog. run_execute. rewrite H1, H2.
      destruct (param_query h); [|by destruct (conn_close c)].
      destruct (param_params h); [|by destruct (conn_close c)].
      destruct (param_includeMetadata h); [|by destruct (conn_close c)].
      destruct (param_rowLimit h); [|by destruct (conn_close c)].
      cbn [app]. destruct (conn_execute c _ _ _); by destruct (conn_close c).
    + rewrite H1 in H1'. injection H1' as <-.
      rewrite H2 in H2'. injection H2' as <-. rewrite Hlog. split.
      * intros i j sent binds opts _ Hj.
        apply list_elem_of_lookup_2 in Hj.
        by apply not_execute_in_close_log in Hj.
      * intros closeErr. rewrite Hclose. split; [by eauto|].
        intros (? & ? & ? & ? & ?). congruence.
    + rewrite H1 in H1'. injection H1' as <-.
      rewrite H2 in H2'. injection H2' as <-. rewrite Hlog. split.
      * intros [|i] [|j] sent binds opts Hi Hj; try done; try lia.
        cbn in Hj. apply list_elem_of_lookup_2 in Hj.
        by apply not_execute_in_close_log in Hj.
      * intros closeErr. rewrite elem_of_cons, Hclose. split.
        -- intros [?|?]; [done|by eauto].
        -- intros (? & ? & ? & ? & ?). right. congruence.
  - assert ((Eff.run (execute toS rng h)).1 = []) as ->.
    { run_execute. rewrite H1, H2.
      destruct (param_query h); [|done].
      destruct (param_params h); [|done].
      destruct (param_includeMetadata h); [|done].
      by destruct (param_rowLimit h). }
    split; [done|]. intros closeErr. split.
    + intros H. by apply elem_of_nil in H.
    + intros (? & ? & ? & ? & _). congruence.
  - assert ((Eff.run (execute toS rng h)).1 = []) as ->
      by (run_execute; by rewrite H1, H2).
    split; [done|]. intros closeErr. split.
    + intros H. by apply elem_of_nil in H.
    + intros (? & ? & ? & ? & _). congruence.
Qed.

Lemma close_is_the_last_call_witness :
  let h := ids_host (rejecting (Some (Thrown "NJS-003"))) in
  (∃ credentials c,
     getCredentials h = Ok credentials
     ∧ getConnection h credentials = Ok (Some c)
     ∧ conn_close c = Some (Thrown "NJS-003"))
  ∧ EvConsoleError (Thrown "NJS-003")
      ∈ (Eff.run (execute sample_toString demo_rng h)).1.
Proof.
  intros h.
  assert (∃ credentials c,
            getCredentials h = Ok credentials
            ∧ getConnection h credentials = Ok (Some c)
            ∧ conn_close c = Some (Thrown "NJS-003")) as H
    by (by exists sample_credentials, (rejecting (Some (Thrown "NJS-003")))).
  split; [exact H|].
  exact (proj2 (proj2 (close_is_the_last_call sample_toString demo_rng h)
                  (Thrown "NJS-003")) H).
Defined.

(** X6.  The node returns items only when everything succeeded: the
    connection was obtained, the four parameters were read and the driver
    executed the statement.  What it returns is then one output branch,
    holding the projection of the driver's result. *)
Theorem success_means_the_driver_succeeded
    (toS : jsnum → string) (rng : nat → N) (h : Host)
    (out : list (list INodeExecutionData)) :
  (Eff.run (execute toS rng h)).2 = Ok out →
  length out = 1
  ∧ ∃ credentials c sql values includeMetadata rowLimit result,
      getCredentials h = Ok credentials
      ∧ getConnection h credentials = Ok (Some c)
      ∧ param_query h = Ok sql
      ∧ param_params h = Ok values
      ∧ param_includeMetadata h = Ok includeMetadata
      ∧ param_rowLimit h = Ok rowLimit
      ∧ conn_execute c
          (applyLimit toS
             (query (compile toS rng sql (default [] values))) rowLimit)
          (acc (compile toS rng sql (default [] values)))
          (execute_options includeMetadata) = Ok result
      ∧ out = [project result includeMetadata []].
Proof.
  destruct (getCredentials h) as [credentials|e] eqn:H1.
  2:{ run_execute. by rewrite H1. }
  destruct (getConnection h credentials) as [[c|]|e] eqn:H2.
  3:{ run_execute. by rewrite H1, H2. }
  2:{ run_execute. rewrite H1, H2.
      destruct (param_query h); [|done].
      destruct (param_params h); [|done].
      destruct (param_includeMetadata h); [|done].
      by destruct (param_rowLimit h). }
  destruct (param_query h) as [sql|] eqn:H3.
  2:{ run_execute. rewrite H1, H2, H3. by destruct (conn_close c). }
  destruct (param_params h) as [values|] eqn:H4.
  2:{ run_execute. rewrite H1, H2, H3, H4. by destruct (conn_close c). }
  destruct (param_includeMetadata h) as [includeMetadata|] eqn:H5.
  2:{ run_execute. rewrite H1, H2, H3, H4, H5. by destruct (conn_close c). }
  destruct (param_rowLimit h) as [rowLimit|] eqn:H6.
  2:{ run_execute. rewrite H1, H2, H3, H4, H5, H6. by destruct (conn_close c). }
  rewrite (execute_run toS rng h credentials c sql values includeMetadata
             rowLimit H1 H2 H3 H4 H5 H6). cbn [snd].
  destruct (conn_execute c _ _ _) as [result|] eqn:H7; [|done].
  intros [= <-]. split; [done|].
  by exists credentials, c, sql, values, includeMetadata, rowLimit, result.
Qed.

Lemma success_means_the_driver_succeeded_witness :
  let h := ids_host (accepting None) in
  (Eff.run (execute sample_toString demo_rng h)).2
  = Ok [[ {| json := ResultObject one_row |} ]]
  ∧ length [[ {| json := ResultObject one_row |} ]] = 1.
Proof.
  intros h.
  assert ((Eff.run (execute sample_toString demo_rng h)).2
          = Ok [[ {| json := ResultObject one_row |} ]]) as H by by_compute.
  split; [exact H|].
  exact (proj1 (success_means_the_driver_succeeded sample_toString demo_rng h
                  _ H)).
Defined.

(** ** Further properties of the bind compiler *)

Section CompilerFacts.

Variable toS : jsnum → string.
Variable rng : nat → N.

Lemma replaceAll_absent (pat r s : string) :
  pat ≠ "" → Str.occurs pat s = false → Str.replaceAll pat r s = s.
Proof.
  intros Hp Ho. unfold Str.replaceAll.
  rewrite <-(str_app_nil_r s) at 2.
  rewrite replaceAll_from_pass by (by apply no_start_at_end).
  by rewrite replaceAll_from_end, str_app_nil_r.
Qed.

(** X7.  An expanding parameter whose placeholder does not occur in the
    SQL is no error: the SQL is left as it is, whatever the name, and the
    synthetic binds are added all the same, so that the bind map then
    holds names the SQL does not refer to. *)
Theorem unmatched_placeholder_still_binds (st : cstate) (p : Param) :
  parseInStatement p = true →
  Str.occurs (":" +:+ name p) (query st) = false →
  let names := synthetic_names rng (name p) (draws st) (segments toS p) in
  query (bind_step toS rng st p) = query st
  ∧ names ≠ []
  ∧ dom (acc (bind_step toS rng st p)) = dom (acc st) ∪ list_to_set names.
Proof.
  intros Hp Ho names. rewrite bind_step_expand by done. cbn [query acc].
  split_and!.
  - by apply replaceAll_absent.
  - subst names. unfold segments.
    pose proof (split_nonempty "," (ToString toS (value p))) as Hne.
    by destruct (Str.split "," (ToString toS (value p))).
  - rewrite dom_insert_all, fst_zip; [done|].
    by rewrite length_synthetic_names.
Qed.

Lemma plain_binds_last_named ps (m : gmap string BindParameter) nm :
  nm ≠ "__proto__" →
  plain_binds toS ps m !! nm
  = match last_named nm ps with
    | Some p => Some (bind_of toS p (value p))
    | None => m !! nm
    end.
Proof.
  intros Hproto. revert m. induction ps as [|p ps IH]; intros m; [done|].
  rewrite plain_binds_cons, IH. unfold last_named. rewrite filter_cons.
  destruct (decide (name p = nm)) as [<-|Hne].
  - rewrite last_cons. destruct (last _); [done|].
    rewrite obj_set_ne by done. apply lookup_insert_eq.
  - destruct (last _); [done|]. by apply lookup_obj_set_ne.
Qed.

Lemma plain_binds_lookup_proto ps (m : gmap string BindParameter) :
  plain_binds toS ps m !! "__proto__" = m !! "__proto__".
Proof.
  revert m. induction ps as [|p ps IH]; intros m; [done|].
  rewrite plain_binds_cons, IH. unfold obj_set.
  destruct (String.eqb_spec (name p) "__proto__"); [done|].
  by apply lookup_insert_ne.
Qed.

(** X8.  Among parameters that do not expand, a name supplied twice is
    bound once, to the last parameter that bears it, and a name not
    supplied is not bound; the name [__proto__] apart, which is never
    bound, supplied or not. *)
Theorem duplicate_name_last_wins (sql : string) (ps : list Param) (nm : string) :
  Forall (λ p, parseInStatement p = false) ps →
  (nm ≠ "__proto__" →
   acc (compile toS rng sql ps) !! nm
   = (λ p, bind_of toS p (value p)) <$> last_named nm ps)
  ∧ acc (compile toS rng sql ps) !! "__proto__" = None.
Proof.
  intros Hall. rewrite compile_plain by done. cbn [acc]. split.
  - intros Hproto. rewrite plain_binds_last_named by done.
    by destruct (last_named nm ps).
  - by rewrite plain_binds_lookup_proto.
Qed.

(** X9.  The suffix of a synthetic name has 36 characters, all of them
    lower-case hexadecimal digits or underscores: no dash of the drawn
    identifier is left.  A synthetic name is therefore never the name of
    its parameter. *)
Theorem uniqueSuffix_is_identifier_text (u : N) (nm : string) :
  String.length (uniqueSuffix u) = 36
  ∧ (∀ c, Str.mem c (uniqueSuffix u) = true →
          Str.mem c "0123456789abcdef_" = true)
  ∧ Str.mem "-" (uniqueSuffix u) = false
  ∧ String.length (nm +:+ uniqueSuffix u) = String.length nm + 36
  ∧ nm +:+ uniqueSuffix u ≠ nm.
Proof.
  assert (String.length (uniqueSuffix u) = 36) as Hlen.
  { rewrite uniqueSuffix_groups. cbn [String.concat].
    rewrite !str_length_app, !length_hex. reflexivity. }
  split_and!.
  - done.
  - intros c Hc. destruct (Str.mem c "0123456789abcdef_") eqn:E; [done|].
    by rewrite mem_uniqueSuffix in Hc.
  - by apply mem_uniqueSuffix.
  - by rewrite str_length_app, Hlen.
  - intros H. apply (f_equal String.length) in H.
    rewrite str_length_app, Hlen in H. lia.
Qed.

(** X10.  When the identifiers drawn for one expansion are pairwise
    different 128-bit values, the synthetic names are pairwise different:
    no segment overwrites the bind of another. *)
Theorem distinct_draws_give_distinct_names (nm : string) (d k : nat) :
  (∀ i j, i < j < k →
     N.modulo (rng (d + i)) (2 ^ 128) ≠ N.modulo (rng (d + j)) (2 ^ 128)) →
  NoDup (synthetic_names rng nm d k).
Proof.
  intros Hdraws. apply NoDup_alt. intros i j x Hi Hj.
  pose proof (lookup_lt_Some _ _ _ Hi) as Hik.
  pose proof (lookup_lt_Some _ _ _ Hj) as Hjk.
  rewrite length_synthetic_names in Hik, Hjk.
  rewrite lookup_synthetic_names in Hi, Hj by done.
  rewrite <-Hi in Hj. apply (inj Some) in Hj.
  apply String.app_inj, uniqueSuffix_inj in Hj.
  destruct (Nat.lt_trichotomy i j) as [Hlt|[->|Hlt]]; [|done|].
  - by destruct (Hdraws i j).
  - by destruct (Hdraws j i).
Qed.

Lemma size_insert_all_le b entries (m : gmap string BindParameter) :
  size (insert_all b entries m) ≤ size m + length entries.
Proof.
  revert m. induction entries as [|[k v] entries IH]; intros m; [simpl; lia|].
  rewrite insert_all_cons. etrans; [apply IH|].
  rewrite map_size_insert. destruct (m !! k); simpl; lia.
Qed.

(** The invariant of the reduction, from any state. *)
Lemma foldl_bind_step_invariant ps (st : cstate) :
  draws (foldl (bind_step toS rng) st ps) = draws st + total_draws toS ps
  ∧ size (acc (foldl (bind_step toS rng) st ps))
    ≤ size (acc st) + total_binds toS ps
  ∧ ∀ k, k ∈ dom (acc (foldl (bind_step toS rng) st ps)) →
      k ∈ dom (acc st)
      ∨ ∃ p, p ∈ ps
             ∧ if parseInStatement p
               then ∃ i, draws st ≤ i < draws (foldl (bind_step toS rng) st ps)
                         ∧ k = name p +:+ uniqueSuffix (rng i)
               else k = name p.
Proof.
  revert st. induction ps as [|p ps IH]; intros st; cbn [foldl].
  { cbn [total_draws total_binds]. split_and!; [lia|lia|by left]. }
  remember (bind_step toS rng st p) as st1 eqn:E.
  destruct (IH st1) as (Hd & Hs & Hk).
  cbn [total_draws total_binds].
  destruct (parseInStatement p) eqn:Hp.
  - rewrite bind_step_expand in E by done.
    assert (draws st1 = draws st + segments toS p) as Hd1 by (by rewrite E).
    assert (acc st1
            = insert_all (λ v, bind_of toS p (VStr v))
                (zip (synthetic_names rng (name p) (draws st) (segments toS p))
                   (Str.split "," (ToString toS (value p)))) (acc st)) as Ha1
      by (by rewrite E).
    clear E. split_and!.
    + lia.
    + etrans; [exact Hs|]. rewrite Ha1.
      pose proof (size_insert_all_le (λ v, bind_of toS p (VStr v))
        (zip (synthetic_names rng (name p) (draws st) (segments toS p))
             (Str.split "," (ToString toS (value p)))) (acc st)) as Hle.
      rewrite length_zip_with, length_synthetic_names in Hle.
      fold (segments toS p) in Hle. lia.
    + intros k [Hin|(q & Hq & Hcase)]%Hk.
      * rewrite Ha1, dom_insert_all, fst_zip in Hin
          by (by rewrite length_synthetic_names).
        apply elem_of_union in Hin as [Hin|Hin]; [by left|].
        right. exists p. split; [apply list_elem_of_here|]. rewrite Hp.
        apply elem_of_list_to_set, list_elem_of_lookup in Hin as [i Hi].
        pose proof (lookup_lt_Some _ _ _ Hi) as Hlt.
        rewrite length_synthetic_names in Hlt.
        rewrite lookup_synthetic_names in Hi by done. apply (inj Some) in Hi.
        exists (draws st + i). split; [lia|done].
      * right. exists q. split; [by apply list_elem_of_further|].
        destruct (parseInStatement q); [|done].
        destruct Hcase as (i & Hi & ->). exists i. split; [lia|done].
  - rewrite bind_step_plain in E by done.
    assert (draws st1 = draws st) as Hd1 by (by rewrite E).
    assert (acc st1 = obj_set (acc st) (name p) (bind_of toS p (value p)))
      as Ha1 by (by rewrite E).
    clear E. split_and!.
    + lia.
    + etrans; [exact Hs|]. rewrite Ha1.
      pose proof (size_obj_set_le (acc st) (name p)
                    (bind_of toS p (value p))). lia.
    + intros k [Hin|(q & Hq & Hcase)]%Hk.
      * rewrite Ha1 in Hin.
        apply (proj2 (dom_obj_set_subseteq _ _ _)) in Hin.
        apply elem_of_union in Hin as [Hin|Hin%elem_of_singleton]; [by left|].
        right. exists p. split; [apply list_elem_of_here|]. by rewrite Hp.
      * right. exists q. split; [by apply list_elem_of_further|].
        destruct (parseInStatement q); [|done].
        destruct Hcase as (i & Hi & ->). exists i. split; [lia|done].
Qed.

(** X11.  For every SQL and parameter list, expanding or not: the
    compilation draws one identifier per segment of every expanding
    parameter, the bind map never holds more entries than one per plain
    parameter and one per segment, and every bound name is the name of a
    supplied plain parameter or the name of a supplied expanding
    parameter followed by the suffix of one of the identifiers drawn. *)
Theorem compiled_binds_come_from_parameters (sql : string) (ps : list Param) :
  let st := compile toS rng sql ps in
  draws st = total_draws toS ps
  ∧ size (acc st) ≤ total_binds toS ps
  ∧ ∀ k, k ∈ dom (acc st) →
      ∃ p, p ∈ ps
           ∧ if parseInStatement p
             then ∃ i, i < draws st ∧ k = name p +:+ uniqueSuffix (rng i)
             else k = name p.
Proof.
  intros st. subst st. unfold compile.
  destruct (foldl_bind_step_invariant ps
              {| acc := ∅; query := sql; draws := 0 |}) as (Hd & Hs & Hk).
  cbn [draws acc] in Hd, Hs, Hk. rewrite map_size_empty in Hs.
  split_and!; [done|done|].
  intros k [Hin|(p & Hp & Hcase)]%Hk; [by rewrite dom_empty_L in Hin|].
  exists p. split; [done|]. destruct (parseInStatement p); [|done].
  destruct Hcase as (i & Hi & ->). exists i. split; [lia|done].
Qed.

(** The reduction only adds names. *)
Lemma dom_bind_step_mono (st : cstate) p :
  dom (acc st) ⊆ dom (acc (bind_step toS rng st p)).
Proof.
  destruct (parseInStatement p) eqn:Hp.
  - rewrite bind_step_expand by done. cbn [acc].
    rewrite dom_insert_all. apply union_subseteq_l.
  - rewrite bind_step_plain by done. cbn [acc].
    apply dom_obj_set_subseteq.
Qed.

Lemma dom_foldl_bind_step_mono ps (st : cstate) :
  dom (acc st) ⊆ dom (acc (foldl (bind_step toS rng) st ps)).
Proof.
  revert st. induction ps as [|p ps IH]; intros st; cbn [foldl]; [done|].
  etrans; [apply dom_bind_step_mono|apply IH].
Qed.

(** Every expanding parameter leaves a synthetic name in the bind map. *)
Lemma foldl_bind_step_expanding ps (st : cstate) p :
  p ∈ ps →
  parseInStatement p = true →
  ∃ i, draws st ≤ i < draws st + total_draws toS ps
       ∧ name p +:+ uniqueSuffix (rng i)
         ∈ dom (acc (foldl (bind_step toS rng) st ps)).
Proof.
  intros Hin Hp. revert st.
  induction ps as [|q ps IH]; intros st; [by apply elem_of_nil in Hin|].
  cbn [foldl total_draws].
  apply elem_of_cons in Hin as [<-|Hin].
  - rewrite Hp. exists (draws st).
    pose proof (split_nonempty "," (ToString toS (value p))) as Hne.
    unfold segments.
    destruct (Str.split "," (ToString toS (value p))) as [|v vals] eqn:E;
      [done|].
    split; [cbn [length]; lia|].
    apply dom_foldl_bind_step_mono.
    rewrite bind_step_expand by done. rewrite E.
    cbn [acc length synthetic_names zip zip_with].
    rewrite insert_all_cons, dom_insert_all. cbn [fst].
    rewrite dom_insert_L. set_solver.
  - destruct (IH Hin (bind_step toS rng st q)) as (i & Hi & Hdom).
    exists i. split; [|done].
    pose proof (foldl_bind_step_invariant [q] st) as (Hd & _ & _).
    cbn [foldl total_draws] in Hd. lia.
Qed.

End CompilerFacts.

Lemma unmatched_placeholder_still_binds_witness :
  let st := start "SELECT 1 FROM dual" in
  (parseInStatement ids_param = true
   ∧ Str.occurs (":" +:+ name ids_param) (query st) = false)
  ∧ query (bind_step sample_toString demo_rng st ids_param)
    = "SELECT 1 FROM dual"
  ∧ dom (acc (bind_step sample_toString demo_rng st ids_param))
    = dom (acc st) ∪ list_to_set (synthetic_names demo_rng "ids" 0 3).
Proof.
  intros st. split; [done|].
  destruct (unmatched_placeholder_still_binds sample_toString demo_rng st
              ids_param eq_refl eq_refl) as (Hq & _ & Hdom).
  exact (conj Hq Hdom).
Defined.

Lemma duplicate_name_last_wins_witness :
  Forall (λ p, parseInStatement p = false) twice_id
  ∧ acc (compile sample_toString demo_rng "SELECT :id FROM dual" twice_id)
      !! "id"
    = Some {| type := DB_STRING; val := VStr "two" |}.
Proof.
  assert (Forall (λ p, parseInStatement p = false) twice_id) as H
    by (repeat constructor).
  split; [exact H|].
  refine (proj1 (duplicate_name_last_wins sample_toString demo_rng
                   "SELECT :id FROM dual" twice_id "id" H) _).
  by intros [=].
Defined.

Lemma distinct_draws_give_distinct_names_witness :
  (∀ i j, i < j < 3 →
     N.modulo (demo_rng (0 + i)) (2 ^ 128)
     ≠ N.modulo (demo_rng (0 + j)) (2 ^ 128))
  ∧ NoDup (synthetic_names demo_rng "ids" 0 3).
Proof.
  assert (∀ i j, i < j < 3 →
            N.modulo (demo_rng (0 + i)) (2 ^ 128)
            ≠ N.modulo (demo_rng (0 + j)) (2 ^ 128)) as H.
  { intros i j [Hij Hj].
    destruct j as [|[|[|j]]]; [lia| | |lia].
    - destruct i as [|i]; [|lia]. by vm_compute.
    - destruct i as [|[|i]]; [| |lia]; by vm_compute. }
  split; [exact H|].
  exact (distinct_draws_give_distinct_names demo_rng "ids" 0 3 H).
Defined.

Lemma compiled_binds_come_from_parameters_witness :
  let st := compile sample_toString demo_rng
              "SELECT * FROM p WHERE c IN :cat AND k = :category" cat_params in
  "category" ∈ dom (acc st)
  ∧ draws st = 2
  ∧ size (acc st) ≤ 3
  ∧ ∃ p, p ∈ cat_params
         ∧ if parseInStatement p
           then ∃ i, i < draws st ∧ "category" = name p +:+ uniqueSuffix (demo_rng i)
           else "category" = name p.
Proof.
  intros st.
  assert ("category" ∈ dom (acc st)) as H by by_compute.
  split; [exact H|].
  destruct (compiled_binds_come_from_parameters sample_toString demo_rng
              "SELECT * FROM p WHERE c IN :cat AND k = :category" cat_params)
    as (Hd & Hs & Hk).
  split; [exact Hd|]. split; [exact Hs|]. exact (Hk "category" H).
Defined.

(** ** Segments *)

Lemma split_app_sep sep (x rest : string) :
  Str.mem sep x = false →
  Str.split sep (x +:+ String sep rest) = x :: Str.split sep rest.
Proof.
  induction x as [|c x IH].
  - intros _. rewrite str_app_nil_l. cbn [Str.split]. by rewrite Ascii.eqb_refl.
  - rewrite mem_cons, (Ascii.eqb_sym sep c), str_app_cons. cbn [Str.split].
    destruct (Ascii.eqb c sep); [done|]. intros H. by rewrite (IH H).
Qed.

(** X12.  The segments of an expanding value are the value cut at every
    comma and nothing else: joined by commas they give the value back,
    character for character, none of them holds a comma, and cutting the
    comma-separated list of comma-free texts gives back those texts.
    Blanks around a segment are part of the segment. *)
Theorem segments_round_trip (s : string) :
  String.concat "," (Str.split "," s) = s
  ∧ Forall (λ v, Str.mem "," v = false) (Str.split "," s)
  ∧ ∀ vs, vs ≠ [] → Forall (λ v, Str.mem "," v = false) vs →
          Str.split "," (String.concat "," vs) = vs.
Proof.
  split_and!.
  - induction s as [|c s IH]; [done|]. cbn [Str.split].
    destruct (Ascii.eqb c ",") eqn:E.
    + apply Ascii.eqb_eq in E as ->.
      pose proof (split_nonempty "," s) as Hne.
      destruct (Str.split "," s) as [|h t] eqn:Es; [done|].
      change (String.concat "," ("" :: h :: t))
        with ("" +:+ "," +:+ String.concat "," (h :: t)).
      by rewrite IH.
    + destruct (Str.split "," s) as [|h [|h' t]] eqn:Es.
      * by destruct (split_nonempty "," s).
      * cbn [String.concat] in *. by rewrite IH.
      * change (String.concat "," (String c h :: h' :: t))
          with (String c (h +:+ "," +:+ String.concat "," (h' :: t))).
        change (String.concat "," (h :: h' :: t))
          with (h +:+ "," +:+ String.concat "," (h' :: t)) in IH.
        by rewrite IH.
  - induction s as [|c s IH]; [by repeat constructor|]. cbn [Str.split].
    destruct (Ascii.eqb c ",") eqn:E; [by constructor|].
    destruct (Str.split "," s) as [|h t].
    { constructor; [|done]. unfold Str.chr.
      by rewrite mem_cons, (Ascii.eqb_sym "," c), E. }
    apply Forall_cons in IH as [Hh Ht]. constructor; [|done].
    by rewrite mem_cons, (Ascii.eqb_sym "," c), E.
  - intros vs Hne Hall. induction Hall as [|v [|v' vs] Hv Hall IH]; [done| |].
    + cbn [String.concat]. by apply split_no_sep.
    + change (String.concat "," (v :: v' :: vs))
        with (v +:+ String "," (String.concat "," (v' :: vs))).
      rewrite split_app_sep by done. by rewrite IH.
Qed.

Lemma segments_round_trip_witness :
  (["Electronics"; " Home"; " Clothing"] ≠ []
   ∧ Forall (λ v, Str.mem "," v = false) ["Electronics"; " Home"; " Clothing"])
  ∧ Str.split "," "Electronics, Home, Clothing"
    = ["Electronics"; " Home"; " Clothing"].
Proof.
  assert (["Electronics"; " Home"; " Clothing"] ≠ []) as H1 by done.
  assert (Forall (λ v, Str.mem "," v = false)
            ["Electronics"; " Home"; " Clothing"]) as H2
    by (repeat constructor).
  split; [done|].
  exact (proj2 (proj2 (segments_round_trip ""))
           ["Electronics"; " Home"; " Clothing"] H1 H2).
Defined.

(** ** The limit injector, again *)

Lemma str_app_eq_self (s t : string) : s +:+ t = s → t = "".
Proof.
  intros H. apply (f_equal String.length) in H.
  rewrite str_length_app in H. destruct t; [done|]. simpl in H. lia.
Qed.

(** X15.  The limit injector leaves the SQL unchanged exactly when the
    row limit is not positive, negative limits included; in every case
    the SQL it returns begins with the SQL it was given. *)
Theorem applyLimit_changes_iff_positive
    (toS : jsnum → string) (sql : string) (rowLimit : Z) :
  (applyLimit toS sql rowLimit = sql ↔ (rowLimit ≤ 0)%Z)
  ∧ Str.starts_with sql (applyLimit toS sql rowLimit) = true.
Proof.
  unfold applyLimit. destruct (Z.ltb_spec 0 rowLimit) as [Hpos|Hneg].
  - split; [|apply starts_with_refl_app].
    split; [|lia]. intros H. by apply str_app_eq_self in H.
  - split; [done|]. rewrite <-(str_app_nil_r sql) at 2.
    apply starts_with_refl_app.
Qed.

Lemma applyLimit_changes_iff_positive_witness :
  (-5 ≤ 0)%Z
  ∧ applyLimit sample_toString "SELECT 1 FROM dual" (-5) = "SELECT 1 FROM dual".
Proof.
  assert (-5 ≤ 0)%Z as H by lia.
  split; [exact H|].
  exact (proj2 (proj1 (applyLimit_changes_iff_positive sample_toString
                         "SELECT 1 FROM dual" (-5))) H).
Defined.

(** ** The token after the rewriting *)

Lemma occurs_refl_app (pat x : string) : Str.occurs pat (pat +:+ x) = true.
Proof.
  destruct pat as [|c pat]; [by destruct x|].
  rewrite str_app_cons. cbn [Str.occurs].
  by rewrite <-str_app_cons, starts_with_refl_app.
Qed.

Lemma occurs_app_r (pat a b : string) :
  Str.occurs pat b = true → Str.occurs pat (a +:+ b) = true.
Proof.
  intros H. induction a as [|c a IH]; [done|].
  rewrite str_app_cons. cbn [Str.occurs]. rewrite IH. by case_match.
Qed.

Lemma occurs_app_l (pat a b : string) :
  Str.occurs pat a = true → Str.occurs pat (a +:+ b) = true.
Proof.
  induction a as [|c a IH].
  - cbn [Str.occurs]. destruct pat; [|done]. intros _. by destruct b.
  - rewrite str_app_cons. cbn [Str.occurs].
    destruct (Str.starts_with pat (String c a)) eqn:E.
    + intros _. rewrite <-str_app_cons, starts_with_app_l; done.
    + intros H. rewrite (IH H). by case_match.
Qed.

(** X16.  The rewriting does not remove the token from the SQL: every
    reference of the clause begins with the placeholder of the parameter.
    A SQL that held the placeholder holds it after the rewriting too, so
    that a second expanding parameter of the same name rewrites the
    references the first one wrote. *)
Theorem token_survives_rewriting
    (toS : jsnum → string) (rng : nat → N) (st : cstate) (p : Param) :
  parseInStatement p = true →
  plain_name (name p) →
  Str.occurs (":" +:+ name p) (query st) = true →
  Str.occurs (":" +:+ name p) (query (bind_step toS rng st p)) = true.
Proof.
  intros Hp [Hcolon Hdollar] Hocc.
  destruct (sql_pieces_exist (":" +:+ name p) (query st))
    as (pieces & Hq & Hall); [done|].
  rewrite bind_step_expand by done. cbn [query].
  pose proof (split_nonempty "," (ToString toS (value p))) as Hne.
  destruct (Str.split "," (ToString toS (value p))) as [|v vals]; [done|].
  cbn [length synthetic_names].
  set (k := name p +:+ uniqueSuffix (rng (draws st))).
  set (names := synthetic_names rng (name p) (S (draws st)) (length vals)).
  assert (Str.mem "$" (in_clause (k :: names)) = false) as Hplain.
  { apply in_clause_plain. constructor.
    - subst k. by rewrite mem_app, Hdollar, mem_uniqueSuffix.
    - by apply synthetic_names_plain. }
  assert (Str.occurs (":" +:+ name p) (in_clause (k :: names)) = true) as Hcl.
  { unfold in_clause, placeholders. rewrite fmap_cons.
    apply occurs_app_r, occurs_app_l.
    destruct ((λ k0, ":" +:+ k0) <$> names) as [|k' l].
    - cbn [String.concat]. subst k.
      rewrite <-str_app_assoc. apply occurs_refl_app.
    - change (String.concat "," ((":" +:+ k) :: k' :: l))
        with ((":" +:+ k) +:+ "," +:+ String.concat "," (k' :: l)).
      apply occurs_app_l. subst k.
      rewrite <-str_app_assoc. apply occurs_refl_app. }
  rewrite Hq, replaceAll_placeholder by done.
  destruct Hall as [|x [|y l] Hx Hall].
  - by rewrite Hq in Hocc.
  - cbn [String.concat] in Hq. rewrite Hq in Hocc. congruence.
  - change (String.concat (in_clause (k :: names)) (x :: y :: l))
      with (x +:+ in_clause (k :: names)
              +:+ String.concat (in_clause (k :: names)) (y :: l)).
    by apply occurs_app_r, occurs_app_l.
Qed.

Lemma token_survives_rewriting_witness :
  let st := start "SELECT id FROM t WHERE id IN :ids" in
  (parseInStatement ids_param = true
   ∧ plain_name (name ids_param)
   ∧ Str.occurs (":" +:+ name ids_param) (query st) = true)
  ∧ Str.occurs ":ids" (query (bind_step sample_toString demo_rng st ids_param))
    = true.
Proof.
  intros st.
  assert (plain_name (name ids_param)) as H by (split; reflexivity).
  split; [done|].
  exact (token_survives_rewriting sample_toString demo_rng st ids_param
           eq_refl H eq_refl).
Defined.

(** ** Numbers written with blanks and in decimal *)

Section NumberFacts.

Lemma rev_app_app (s acc : string) :
  String.rev_app s acc = String.rev_app s "" +:+ acc.
Proof.
  revert acc. induction s as [|a s IH]; intros acc; [done|].
  cbn [String.rev_app]. rewrite (IH (String a acc)), (IH (String a "")).
  by rewrite str_app_assoc.
Qed.

Lemma rev_cons a (s : string) :
  String.rev (String a s) = String.rev s +:+ String a "".
Proof. unfold String.rev. cbn [String.rev_app]. apply rev_app_app. Qed.

Lemma rev_app_distr (a b : string) :
  String.rev (a +:+ b) = String.rev b +:+ String.rev a.
Proof.
  induction a as [|c a IH].
  - by rewrite str_app_nil_l, str_app_nil_r.
  - by rewrite str_app_cons, !rev_cons, IH, str_app_assoc.
Qed.

Lemma rev_involutive (s : string) : String.rev (String.rev s) = s.
Proof.
  induction s as [|c s IH]; [done|].
  by rewrite rev_cons, rev_app_distr, IH.
Qed.

Lemma blank_app (a b : string) : blank (a +:+ b) = blank a && blank b.
Proof.
  induction a as [|c a IH]; [done|].
  rewrite str_app_cons. cbn [blank]. by rewrite IH, andb_assoc.
Qed.

Lemma blank_rev (s : string) : blank (String.rev s) = blank s.
Proof.
  induction s as [|c s IH]; [done|].
  rewrite rev_cons, blank_app, IH. cbn [blank].
  by rewrite andb_true_r, andb_comm.
Qed.

Lemma trim_start_blank (a s : string) :
  blank a = true → Num.trim_start (a +:+ s) = Num.trim_start s.
Proof.
  induction a as [|c a IH]; [done|]. cbn [blank].
  intros [Hc Ha]%andb_true_iff. rewrite str_app_cons.
  cbn [Num.trim_start]. rewrite Hc. by apply IH.
Qed.

Lemma trim_start_nil_iff (s : string) :
  Num.trim_start s = "" ↔ blank s = true.
Proof.
  induction s as [|c s IH]; [done|]. cbn [Num.trim_start blank].
  destruct (Num.is_ws c); [done|]. by split.
Qed.

Lemma trim_start_app_r (s b : string) :
  Num.trim_start s ≠ "" → Num.trim_start (s +:+ b) = Num.trim_start s +:+ b.
Proof.
  induction s as [|c s IH]; [done|]. rewrite str_app_cons.
  cbn [Num.trim_start]. destruct (Num.is_ws c); [done|].
  intros _. by rewrite str_app_cons.
Qed.

Lemma trim_blank_l (a s : string) :
  blank a = true → Num.trim (a +:+ s) = Num.trim s.
Proof. intros Ha. unfold Num.trim. by rewrite trim_start_blank. Qed.

Lemma trim_blank_r (s b : string) :
  blank b = true → Num.trim (s +:+ b) = Num.trim s.
Proof.
  intros Hb. unfold Num.trim.
  destruct (decide (Num.trim_start s = "")) as [Hs|Hs].
  - assert (Num.trim_start (s +:+ b) = "") as ->; [|by rewrite Hs].
    apply trim_start_nil_iff. rewrite blank_app, Hb.
    by apply trim_start_nil_iff in Hs as ->.
  - rewrite trim_start_app_r, rev_app_distr, trim_start_blank; [done| |done].
    by rewrite blank_rev.
Qed.

Lemma trim_blank (s : string) : blank s = true → Num.trim s = "".
Proof.
  intros Hs. unfold Num.trim.
  by apply trim_start_nil_iff in Hs as ->.
Qed.

(** [Number] does not see the blanks around a text. *)
Lemma StringToNumber_blanks (a s b : string) :
  blank a = true → blank b = true →
  Num.StringToNumber (a +:+ s +:+ b) = Num.StringToNumber s.
Proof.
  intros Ha Hb. unfold Num.StringToNumber.
  by rewrite trim_blank_l, trim_blank_r.
Qed.

End NumberFacts.

(** X13.  For a parameter declared NUMBER the blanks around a value, or
    around a segment of it, do not count: the text binds the same number
    with and without them.  A value or segment of blanks only, such as
    the empty segment of ["1,,2"], binds zero. *)
Theorem number_ignores_blanks
    (toS : jsnum → string) (p : Param) (a s b : string) :
  datatype p = "number" →
  blank a = true →
  blank b = true →
  bind_of toS p (VStr (a +:+ s +:+ b)) = bind_of toS p (VStr s)
  ∧ bind_of toS p (VStr a)
    = {| type := DB_NUMBER; val := VNum (Finite false 0 0) |}.
Proof.
  intros Hty Ha Hb. unfold bind_of, dataType, coerce, is_number.
  rewrite Hty. cbn [String.eqb Ascii.eqb Bool.eqb ToNumber]. split.
  - by rewrite StringToNumber_blanks.
  - unfold Num.StringToNumber. by rewrite trim_blank.
Qed.

Lemma number_ignores_blanks_witness :
  (datatype ids_param = "number" ∧ blank " " = true ∧ blank "" = true)
  ∧ bind_of sample_toString ids_param (VStr (" " +:+ "2" +:+ ""))
    = {| type := DB_NUMBER; val := VNum (Finite false 2 0) |}.
Proof.
  split; [done|].
  exact (proj1 (number_ignores_blanks sample_toString ids_param " " "2" ""
                  eq_refl eq_refl eq_refl)).
Defined.

Section DecimalText.

Local Open Scope N_scope.

Lemma pretty_N_char_digit d :
  d < 10 →
  Num.digit_val 10 (pretty_N_char d) = Some d
  ∧ Num.code_in 48 57 (pretty_N_char d) = true.
Proof.
  intros Hd.
  assert (d = 0 ∨ d = 1 ∨ d = 2 ∨ d = 3 ∨ d = 4 ∨ d = 5 ∨ d = 6 ∨ d = 7
          ∨ d = 8 ∨ d = 9) as H by lia.
  repeat destruct H as [->|H]; try subst d; by split.
Qed.

Lemma pretty_N_go_app x (s : string) :
  pretty_N_go x s = pretty_N_go x "" +:+ s.
Proof.
  revert s. induction (N.lt_wf_0 x) as [x _ IH]; intros s.
  assert (x = 0 ∨ 0 < x) as [->|Hx] by lia; [done|].
  rewrite !(pretty_N_go_step x) by done.
  rewrite (IH (x `div` 10)) by (by apply N.div_lt).
  rewrite (IH (x `div` 10) ltac:(by apply N.div_lt) (String _ "")).
  by rewrite str_app_assoc.
Qed.

(** The digits of a positive number: those of its tenth, and its last
    digit. *)
Lemma pretty_N_go_snoc x :
  0 < x →
  pretty_N_go x "" = pretty_N_go (x `div` 10) "" +:+ Str.chr (pretty_N_char (x `mod` 10)).
Proof.
  intros Hx. rewrite pretty_N_go_step by done. apply pretty_N_go_app.
Qed.

Lemma digits_go_app base a (t s : string) :
  Num.digits_go base a (t +:+ s)
  = Num.digits_go base a t ≫= λ a', Num.digits_go base a' s.
Proof.
  revert a. induction t as [|c t IH]; intros a; [done|].
  rewrite str_app_cons. cbn [Num.digits_go].
  destruct (Num.digit_val base c); [apply IH|done].
Qed.

Lemma all_decimal_app (a b : string) :
  all_decimal (a +:+ b) = all_decimal a && all_decimal b.
Proof.
  induction a as [|c a IH]; [done|].
  rewrite str_app_cons. cbn [all_decimal]. by rewrite IH, andb_assoc.
Qed.

Lemma pretty_N_go_value x :
  Num.digits_go 10 0 (pretty_N_go x "") = Some x
  ∧ all_decimal (pretty_N_go x "") = true.
Proof.
  induction (N.lt_wf_0 x) as [x _ IH].
  assert (x = 0 ∨ 0 < x) as [->|Hx] by lia; [done|].
  rewrite pretty_N_go_snoc by done.
  destruct (IH (x `div` 10)) as [Hv Hd]; [by apply N.div_lt|].
  destruct (pretty_N_char_digit (x `mod` 10)) as [Hc1 Hc2];
    [by apply N.mod_lt|].
  split.
  - rewrite digits_go_app, Hv. cbn [mbind option_bind Str.chr Num.digits_go].
    rewrite Hc1. f_equal. pose proof (N.div_mod x 10). lia.
  - rewrite all_decimal_app, Hd. cbn [Str.chr all_decimal]. by rewrite Hc2.
Qed.

Lemma digit_is_not_ws c : Num.code_in 48 57 c = true → Num.is_ws c = false.
Proof.
  unfold Num.is_ws, Num.code_in.
  intros [H1 H2]%andb_true_iff.
  apply N.leb_le in H1, H2.
  repeat (apply orb_false_intro); apply andb_false_iff.
  - destruct (N.leb_spec 9 (N_of_ascii c)), (N.leb_spec (N_of_ascii c) 13);
      auto; lia.
  - right. apply N.leb_gt. lia.
  - left. apply N.leb_gt. lia.
Qed.

Lemma all_decimal_rev (s : string) : all_decimal (String.rev s) = all_decimal s.
Proof.
  induction s as [|c s IH]; [done|].
  rewrite rev_cons, all_decimal_app, IH. cbn [all_decimal].
  by rewrite andb_true_r, andb_comm.
Qed.

Lemma trim_start_decimal (s : string) :
  all_decimal s = true → Num.trim_start s = s.
Proof.
  destruct s as [|c s]; [done|]. cbn [all_decimal Num.trim_start].
  intros [Hc _]%andb_true_iff. by rewrite digit_is_not_ws.
Qed.

Lemma trim_decimal (s : string) : all_decimal s = true → Num.trim s = s.
Proof.
  intros Hs. unfold Num.trim.
  rewrite (trim_start_decimal s), trim_start_decimal, rev_involutive;
    [done|by rewrite all_decimal_rev|done].
Qed.

Lemma span_digits_decimal (s : string) :
  all_decimal s = true → Num.span_digits s = (s, "").
Proof.
  induction s as [|c s IH]; [done|]. cbn [all_decimal Num.span_digits].
  intros [Hc Hs]%andb_true_iff. by rewrite Hc, (IH Hs).
Qed.

Lemma digit_eqb_false c (d : ascii) :
  Num.code_in 48 57 c = true → Num.code_in 48 57 d = false →
  Ascii.eqb c d = false.
Proof.
  intros Hc Hd. destruct (Ascii.eqb c d) eqn:E; [|done].
  apply Ascii.eqb_eq in E as ->. congruence.
Qed.

(** A text of decimal digits is read as the number it writes. *)
Lemma StringToNumber_decimal (s : string) n :
  s ≠ "" → all_decimal s = true → Num.digits_go 10 0 s = Some n →
  Num.StringToNumber s = Finite false n 0.
Proof.
  intros Hne Hs Hn. unfold Num.StringToNumber. rewrite trim_decimal by done.
  destruct s as [|c s]; [done|]. clear Hne.
  assert (Num.code_in 48 57 c = true) as Hc.
  { cbn [all_decimal] in Hs. by apply andb_true_iff in Hs as [? _]. }
  assert (String.eqb (String c s) "" = false) as -> by done.
  assert (Num.non_decimal (String c s) = None) as ->.
  { unfold Num.non_decimal. destruct s as [|x s]; [done|].
    assert (Num.code_in 48 57 x = true) as Hx.
    { cbn [all_decimal] in Hs.
      apply andb_true_iff in Hs as [_ [? _]%andb_true_iff]. done. }
    destruct (Ascii.eqb c "0"); [|done].
    by rewrite !(digit_eqb_false x) by done. }
  unfold Num.decimal. rewrite !(digit_eqb_false c) by done.
  unfold Num.unsigned_decimal.
  assert (String.eqb (String c s) "Infinity" = false) as ->.
  { cbn [String.eqb]. by rewrite (digit_eqb_false c). }
  rewrite span_digits_decimal by done.
  unfold Num.digits. rewrite Hn. done.
Qed.

End DecimalText.

(** X14.  A parameter declared NUMBER whose value, or segment, is the
    decimal text of a natural number up to 2^53, where every integer is
    a double, with or without blanks around it, is bound to that
    number. *)
Theorem decimal_text_binds_its_number
    (toS : jsnum → string) (p : Param) (n : N) (a b : string) :
  datatype p = "number" →
  (n ≤ 2 ^ 53)%N →
  blank a = true →
  blank b = true →
  bind_of toS p (VStr (a +:+ pretty n +:+ b))
  = {| type := DB_NUMBER; val := VNum (Finite false n 0) |}.
Proof.
  intros Hty _ Ha Hb. unfold bind_of, dataType, coerce, is_number.
  rewrite Hty. cbn [String.eqb Ascii.eqb Bool.eqb ToNumber].
  rewrite StringToNumber_blanks by done. do 2 f_equal.
  unfold pretty, pretty_N. destruct (decide (n = 0%N)) as [->|Hn]; [done|].
  destruct (pretty_N_go_value n) as [Hv Hd].
  apply StringToNumber_decimal; [|done..].
  rewrite pretty_N_go_snoc by lia. intros H.
  apply (f_equal String.length) in H. rewrite str_length_app in H.
  simpl in H. lia.
Qed.

Lemma decimal_text_binds_its_number_witness :
  (datatype ids_param = "number" ∧ (12345 ≤ 2 ^ 53)%N
   ∧ blank " " = true ∧ blank "" = true)
  ∧ bind_of sample_toString ids_param (VStr (" " +:+ pretty 12345%N +:+ ""))
    = {| type := DB_NUMBER; val := VNum (Finite false 12345 0) |}.
Proof.
  assert (12345 ≤ 2 ^ 53)%N as Hn by (by vm_compute).
  split; [done|].
  exact (decimal_text_binds_its_number sample_toString ids_param 12345 " " ""
           eq_refl Hn eq_refl eq_refl).
Defined.

(** ** Parameters without a placeholder *)

Lemma bind_step_query_absent
    (toS : jsnum → string) (rng : nat → N) (st : cstate) (p : Param) :
  (parseInStatement p = true →
   Str.occurs (":" +:+ name p) (query st) = false) →
  query (bind_step toS rng st p) = query st.
Proof.
  intros H. destruct (parseInStatement p) eqn:Hp.
  - rewrite bind_step_expand by done. cbn [query].
    by apply replaceAll_absent; [|apply H].
  - by rewrite bind_step_plain.
Qed.

(** X17.  The SQL is rewritten only through the placeholders of the
    expanding parameters: when none of them occurs in the SQL, the
    compiled SQL is the SQL, for any mix of parameters, of names and of
    values. *)
Theorem sql_without_placeholders_is_kept
    (toS : jsnum → string) (rng : nat → N) (sql : string) (ps : list Param) :
  (∀ p, p ∈ ps → parseInStatement p = true →
        Str.occurs (":" +:+ name p) sql = false) →
  query (compile toS rng sql ps) = sql.
Proof.
  unfold compile.
  change sql with (query {| acc := ∅; query := sql; draws := 0 |}) at 1 3.
  generalize {| acc := ∅; query := sql; draws := 0 |}.
  induction ps as [|p ps IH]; intros st H; [done|]. cbn [foldl].
  assert (query (bind_step toS rng st p) = query st) as E.
  { apply bind_step_query_absent. apply H, list_elem_of_here. }
  rewrite IH; [done|]. intros q Hq. rewrite E.
  apply H. by apply list_elem_of_further.
Qed.

Lemma sql_without_placeholders_is_kept_witness :
  (∀ p, p ∈ cat_params → parseInStatement p = true →
        Str.occurs (":" +:+ name p) "SELECT :k FROM dual" = false)
  ∧ query (compile sample_toString demo_rng "SELECT :k FROM dual" cat_params)
    = "SELECT :k FROM dual".
Proof.
  assert (∀ p, p ∈ cat_params → parseInStatement p = true →
               Str.occurs (":" +:+ name p) "SELECT :k FROM dual" = false) as H.
  { intros p Hp Hexp. unfold cat_params in Hp.
    apply elem_of_cons in Hp as [->|Hp]; [done|].
    apply elem_of_cons in Hp as [->|Hp]; [done|].
    by apply elem_of_nil in Hp. }
  split; [exact H|].
  exact (sql_without_placeholders_is_kept sample_toString demo_rng
           "SELECT :k FROM dual" cat_params H).
Defined.

(** ** Two runs *)

(** C9.  Without an expanding parameter the compilation does not consult
    the random source: two runs on the same SQL and parameters give the
    same SQL and the same bind map, whatever is drawn.  With expansion,
    when the identifiers one run draws differ from those the other
    draws, the synthetic names differ across the runs: a name the two
    bind maps share is the name of a parameter that does not expand; and
    every expanding parameter does leave a synthetic name, of one of the
    identifiers drawn, in the bind map of its run. *)
Theorem compile_deterministic_without_expansion
    (toS : jsnum → string) (sql : string) (ps : list Param)
    (rng1 rng2 : nat → N) :
  (Forall (λ p, parseInStatement p = false) ps →
   compile toS rng1 sql ps = compile toS rng2 sql ps)
  ∧ ((∀ i j, i < total_draws toS ps → j < total_draws toS ps →
             (rng1 i mod 2 ^ 128)%N ≠ (rng2 j mod 2 ^ 128)%N) →
     ∀ key, key ∈ dom (acc (compile toS rng1 sql ps)) →
            key ∈ dom (acc (compile toS rng2 sql ps)) →
            ∃ p, p ∈ ps ∧ parseInStatement p = false ∧ key = name p)
  ∧ (∀ p, p ∈ ps → parseInStatement p = true →
       (∃ i, i < total_draws toS ps
             ∧ name p +:+ uniqueSuffix (rng1 i)
               ∈ dom (acc (compile toS rng1 sql ps)))
       ∧ (∃ j, j < total_draws toS ps
               ∧ name p +:+ uniqueSuffix (rng2 j)
                 ∈ dom (acc (compile toS rng2 sql ps)))).
Proof.
  split_and!.
  - intros Hall. by rewrite !compile_plain.
  - intros Hrng key H1 H2. unfold compile in H1, H2.
    destruct (foldl_bind_step_invariant toS rng1 ps
                {| acc := ∅; query := sql; draws := 0 |}) as (Hd1 & _ & Hk1).
    destruct (foldl_bind_step_invariant toS rng2 ps
                {| acc := ∅; query := sql; draws := 0 |}) as (Hd2 & _ & Hk2).
    cbn [draws acc] in Hd1, Hd2, Hk1, Hk2.
    apply Hk1 in H1 as [H1|(p1 & Hp1 & Hc1)];
      [by rewrite dom_empty_L in H1|].
    apply Hk2 in H2 as [H2|(p2 & Hp2 & Hc2)];
      [by rewrite dom_empty_L in H2|].
    destruct (parseInStatement p1) eqn:E1; [|by exists p1].
    destruct (parseInStatement p2) eqn:E2; [|by exists p2].
    destruct Hc1 as (i & Hi & Hkey1). destruct Hc2 as (j & Hj & Hkey2).
    rewrite Hkey1 in Hkey2. apply synthetic_name_inj in Hkey2.
    destruct (Hrng i j); [lia|lia|done].
  - intros p Hin Hp. split.
    + destruct (foldl_bind_step_expanding toS rng1 ps
                  {| acc := ∅; query := sql; draws := 0 |} p Hin Hp)
        as (i & Hi & Hdom).
      exists i. split; [cbn [draws] in Hi; lia|done].
    + destruct (foldl_bind_step_expanding toS rng2 ps
                  {| acc := ∅; query := sql; draws := 0 |} p Hin Hp)
        as (j & Hj & Hdom).
      exists j. split; [cbn [draws] in Hj; lia|done].
Qed.

Lemma compile_deterministic_without_expansion_witness :
  let sql := "SELECT id FROM t WHERE id = :id AND label = :label" in
  let sql' := "SELECT id FROM t WHERE id IN :ids AND k = :category" in
  let ps := [ids_param; category_param] in
  (Forall (λ p, parseInStatement p = false) plain_params
   ∧ (∀ i j, i < total_draws sample_toString ps →
             j < total_draws sample_toString ps →
             (demo_rng i mod 2 ^ 128)%N ≠ (other_rng j mod 2 ^ 128)%N))
  ∧ compile sample_toString demo_rng sql plain_params
    = compile sample_toString other_rng sql plain_params
  ∧ (∀ key, key ∈ dom (acc (compile sample_toString demo_rng sql' ps)) →
            key ∈ dom (acc (compile sample_toString other_rng sql' ps)) →
            ∃ p, p ∈ ps ∧ parseInStatement p = false ∧ key = name p).
Proof.
  intros sql sql' ps.
  assert (Forall (λ p, parseInStatement p = false) plain_params) as H
    by (repeat constructor).
  assert (∀ i j, i < total_draws sample_toString ps →
                 j < total_draws sample_toString ps →
                 (demo_rng i mod 2 ^ 128)%N ≠ (other_rng j mod 2 ^ 128)%N)
    as Hrng.
  { intros i j Hi Hj.
    change (total_draws sample_toString ps) with 3 in Hi, Hj.
    destruct i as [|[|[|i]]]; [| | |lia];
      (destruct j as [|[|[|j]]]; [| | |lia]); by vm_compute. }
  split; [done|]. split.
  - exact (proj1 (compile_deterministic_without_expansion sample_toString sql
                    plain_params demo_rng other_rng) H).
  - exact (proj1 (proj2 (compile_deterministic_without_expansion
                           sample_toString sql' ps demo_rng other_rng)) Hrng).
Defined.

(** ** The numeric literals and [Number] *)

Section LiteralFacts.

Lemma trim_start_split (s : string) :
  ∃ a, s = a +:+ Num.trim_start s ∧ blank a = true.
Proof.
  induction s as [|c s (a & IH & Ha)]; [by exists ""|].
  cbn [Num.trim_start]. destruct (Num.is_ws c) eqn:E.
  - exists (String c a). rewrite str_app_cons, <-IH. cbn [blank].
    by rewrite E, Ha.
  - by exists "".
Qed.

(** A text is its trimmed text with blanks around. *)
Lemma trim_split (s : string) :
  ∃ a b, s = a +:+ Num.trim s +:+ b ∧ blank a = true ∧ blank b = true.
Proof.
  destruct (trim_start_split s) as (a & Hs & Ha).
  destruct (trim_start_split (String.rev (Num.trim_start s)))
    as (b & Hr & Hb).
  exists a, (String.rev b). split_and!; [|done|by rewrite blank_rev].
  rewrite Hs at 1. f_equal. unfold Num.trim.
  rewrite <-(rev_involutive (Num.trim_start s)) at 1.
  rewrite Hr at 1. by rewrite rev_app_distr.
Qed.

Lemma all_decimal_all_in (s : string) :
  all_decimal s = all_in (Num.code_in 48 57) s.
Proof. induction s as [|c s IH]; [done|]. cbn [all_decimal all_in]. by rewrite IH. Qed.

Lemma digit_val_decimal c d :
  Num.digit_val 10 c = Some d → Num.code_in 48 57 c = true.
Proof. revert d. code_cases. Qed.

Lemma digit_val_hex c d : Num.digit_val 16 c = Some d → hex_char c = true.
Proof. revert d. code_cases. Qed.

Lemma digit_val_octal c d : Num.digit_val 8 c = Some d → octal_char c = true.
Proof. revert d. code_cases. Qed.

Lemma digit_val_binary c d :
  Num.digit_val 2 c = Some d → binary_char c = true.
Proof. revert d. code_cases. Qed.

(** What [digits_go] accepts is made of digits of the base. *)
Lemma digits_go_all_in base (ok : ascii → bool) a (s : string) m :
  (∀ c d, Num.digit_val base c = Some d → ok c = true) →
  Num.digits_go base a s = Some m → all_in ok s = true.
Proof.
  intros Hok. revert a. induction s as [|c s IH]; intros a; [done|].
  cbn [Num.digits_go all_in].
  destruct (Num.digit_val base c) as [d|] eqn:E; [|done].
  intros H. by rewrite (Hok _ _ E), (IH _ H).
Qed.

Lemma digits_all_in base (ok : ascii → bool) (s : string) m :
  (∀ c d, Num.digit_val base c = Some d → ok c = true) →
  Num.digits base s = Some m → s ≠ "" ∧ all_in ok s = true.
Proof.
  intros Hok H. destruct s as [|c s]; [done|]. split; [done|].
  by apply (digits_go_all_in base ok 0%N _ m).
Qed.

Lemma digits_decimal_digits (s : string) m :
  Num.digits 10 s = Some m → decimal_digits s.
Proof.
  intros [Hne H]%(digits_all_in 10 (Num.code_in 48 57));
    [|apply digit_val_decimal].
  split; [done|]. by rewrite all_decimal_all_in.
Qed.

Lemma span_digits_spec (s d r : string) :
  Num.span_digits s = (d, r) → s = d +:+ r ∧ all_decimal d = true.
Proof.
  revert d r. induction s as [|c s IH]; intros d r.
  - by intros [= <- <-].
  - cbn [Num.span_digits]. destruct (Num.code_in 48 57 c) eqn:E.
    + destruct (Num.span_digits s) as [d' r'].
      destruct (IH d' r' eq_refl) as [-> Hd]. intros [= <- <-].
      rewrite str_app_cons. cbn [all_decimal]. by rewrite E, Hd.
    + by intros [= <- <-].
Qed.

Lemma ascii_eqb_or (c a b : ascii) :
  Ascii.eqb c a || Ascii.eqb c b = true → c = a ∨ c = b.
Proof.
  intros [H|H]%orb_true_iff; apply Ascii.eqb_eq in H; auto.
Qed.

Lemma exponent_sound (s : string) e :
  Num.exponent s = Some e → s = "" ∨ exponent_part s.
Proof.
  destruct s as [|c s]; [by left|]. intros H. right. revert H.
  cbn [Num.exponent].
  destruct (Ascii.eqb c "e" || Ascii.eqb c "E") eqn:Ec; [|done].
  apply ascii_eqb_or in Ec.
  assert (Str.chr c = "e" ∨ Str.chr c = "E") as He
    by (destruct Ec as [->| ->]; auto).
  destruct s as [|g s]; [done|].
  destruct (Ascii.eqb g "-") eqn:Eg.
  { apply Ascii.eqb_eq in Eg as ->.
    destruct (Num.digits 10 s) as [m|] eqn:Ed; [|done]. intros _.
    exists (Str.chr c), "-", s. split_and!; [done|done|by right; right|].
    by apply (digits_decimal_digits _ m). }
  destruct (Ascii.eqb g "+") eqn:Eg'.
  { apply Ascii.eqb_eq in Eg' as ->.
    destruct (Num.digits 10 s) as [m|] eqn:Ed; [|done]. intros _.
    exists (Str.chr c), "+", s. split_and!; [done|done|by right; left|].
    by apply (digits_decimal_digits _ m). }
  destruct (Num.digits 10 (String g s)) as [m|] eqn:Ed; [|done]. intros _.
  exists (Str.chr c), "", (String g s). split_and!; [done|done|by left|].
  by apply (digits_decimal_digits _ m).
Qed.

Lemma unsigned_decimal_sound neg (s : string) n :
  Num.unsigned_decimal neg s = Some n → unsigned_decimal_literal s.
Proof.
  unfold Num.unsigned_decimal.
  destruct (String.eqb_spec s "Infinity") as [->|_]; [by left|].
  destruct (Num.span_digits s) as [d1 r1] eqn:E1.
  apply span_digits_spec in E1 as [-> Hd1].
  destruct r1 as [|c r1].
  { destruct (Num.digits 10 d1) as [m|] eqn:Ed; [|done]. intros _.
    right. exists d1, "". split_and!; [by left|done|].
    left. split; [done|]. by destruct d1. }
  destruct (Ascii.eqb c ".") eqn:Ec.
  - apply Ascii.eqb_eq in Ec as ->.
    destruct (Num.span_digits r1) as [d2 r2] eqn:E2.
    apply span_digits_spec in E2 as [-> Hd2].
    destruct (String.eqb_spec (d1 +:+ d2) "") as [|Hne]; [done|].
    destruct (Num.exponent r2) as [e|] eqn:Ee; [|done]. intros _.
    right. exists d1, r2. split_and!; [by apply (exponent_sound _ e)|done|].
    right. by exists d2.
  - destruct (Num.exponent (String c r1)) as [e|] eqn:Ee; [|done].
    destruct (Num.digits 10 d1) as [m|] eqn:Ed; [|done]. intros _.
    right. exists d1, (String c r1).
    split_and!; [by apply (exponent_sound _ e)|done|].
    left. split; [done|]. by destruct d1.
Qed.

Lemma decimal_sound (s : string) n :
  Num.decimal s = Some n →
  ∃ sg u, s = sg +:+ u ∧ sign_opt sg ∧ unsigned_decimal_literal u.
Proof.
  destruct s as [|c s]; [done|]. cbn [Num.decimal].
  destruct (Ascii.eqb c "-") eqn:E1.
  { apply Ascii.eqb_eq in E1 as ->. intros H%unsigned_decimal_sound.
    exists "-", s. split_and!; [done|by right; right|done]. }
  destruct (Ascii.eqb c "+") eqn:E2.
  { apply Ascii.eqb_eq in E2 as ->. intros H%unsigned_decimal_sound.
    exists "+", s. split_and!; [done|by right; left|done]. }
  intros H%unsigned_decimal_sound.
  exists "", (String c s). split_and!; [done|by left|done].
Qed.

Lemma non_decimal_sound (s : string) n :
  Num.non_decimal s = Some n → non_decimal_literal s.
Proof.
  destruct s as [|z [|x ds]]; [done..|]. cbn [Num.non_decimal].
  destruct (Ascii.eqb z "0") eqn:Ez; [|done].
  apply Ascii.eqb_eq in Ez as ->.
  destruct (Ascii.eqb x "x" || Ascii.eqb x "X") eqn:E16.
  { apply ascii_eqb_or in E16. cbn [mbind option_bind].
    destruct (Num.digits 16 ds) as [m|] eqn:Ed; [|done]. intros _.
    apply (digits_all_in 16 hex_char) in Ed as [Hne Hall];
      [|apply digit_val_hex].
    exists ds. split; [done|]. left. split; [|done].
    destruct E16 as [->| ->]; auto. }
  destruct (Ascii.eqb x "o" || Ascii.eqb x "O") eqn:E8.
  { apply ascii_eqb_or in E8. cbn [mbind option_bind].
    destruct (Num.digits 8 ds) as [m|] eqn:Ed; [|done]. intros _.
    apply (digits_all_in 8 octal_char) in Ed as [Hne Hall];
      [|apply digit_val_octal].
    exists ds. split; [done|]. right. left. split; [|done].
    destruct E8 as [->| ->]; auto. }
  destruct (Ascii.eqb x "b" || Ascii.eqb x "B") eqn:E2; [|done].
  apply ascii_eqb_or in E2. cbn [mbind option_bind].
  destruct (Num.digits 2 ds) as [m|] eqn:Ed; [|done]. intros _.
  apply (digits_all_in 2 binary_char) in Ed as [Hne Hall];
    [|apply digit_val_binary].
  exists ds. split; [done|]. right. right. split; [|done].
  destruct E2 as [->| ->]; auto.
Qed.

(** Soundness of [Number]: a text it has a number for is a numeric
    literal. *)
Lemma StringToNumber_sound (s : string) :
  Num.StringToNumber s ≠ NaN → numeric_literal s.
Proof.
  destruct (trim_split s) as (a & b & Hs & Ha & Hb).
  unfold Num.StringToNumber. intros H.
  exists a, (Num.trim s), b. split_and!; [done..|].
  destruct (String.eqb_spec (Num.trim s) "") as [Ht|_]; [by left|].
  destruct (Num.non_decimal (Num.trim s)) as [n|] eqn:En.
  { right. left. by apply (non_decimal_sound _ n). }
  destruct (Num.decimal (Num.trim s)) as [n|] eqn:Ed; [|done].
  right. right. by apply (decimal_sound _ n).
Qed.

(** A text that is not a numeric literal is read as NaN. *)
Lemma StringToNumber_not_literal (s : string) :
  ¬ numeric_literal s → Num.StringToNumber s = NaN.
Proof.
  intros Hs. destruct (decide (Num.StringToNumber s = NaN)) as [|Hn]; [done|].
  destruct Hs. by apply StringToNumber_sound.
Qed.

(** *** Completeness: [Number] has a number for every literal *)

Lemma all_in_app ok (a b : string) :
  all_in ok (a +:+ b) = all_in ok a && all_in ok b.
Proof.
  induction a as [|c a IH]; [done|].
  rewrite str_app_cons. cbn [all_in]. by rewrite IH, andb_assoc.
Qed.

Lemma all_in_rev ok (s : string) : all_in ok (String.rev s) = all_in ok s.
Proof.
  induction s as [|c s IH]; [done|].
  rewrite rev_cons, all_in_app, IH. cbn [all_in].
  by rewrite andb_true_r, andb_comm.
Qed.

Lemma all_in_impl (ok ok' : ascii → bool) (s : string) :
  (∀ c, ok c = true → ok' c = true) →
  all_in ok s = true → all_in ok' s = true.
Proof.
  intros Himp. induction s as [|c s IH]; [done|]. cbn [all_in].
  intros [Hc Hs]%andb_true_iff. by rewrite (Himp _ Hc), (IH Hs).
Qed.

Lemma trim_start_no_ws (s : string) : no_ws s = true → Num.trim_start s = s.
Proof.
  destruct s as [|c s]; [done|]. unfold no_ws. cbn [all_in Num.trim_start].
  intros [Hc _]%andb_true_iff. apply negb_true_iff in Hc. by rewrite Hc.
Qed.

Lemma trim_no_ws (s : string) : no_ws s = true → Num.trim s = s.
Proof.
  intros Hs. unfold Num.trim.
  rewrite (trim_start_no_ws s), trim_start_no_ws, rev_involutive;
    [done| |done].
  unfold no_ws. by rewrite all_in_rev.
Qed.

Lemma no_ws_app (a b : string) : no_ws (a +:+ b) = no_ws a && no_ws b.
Proof. apply all_in_app. Qed.

Lemma hex_char_not_ws c : hex_char c = true → negb (Num.is_ws c) = true.
Proof. code_cases. Qed.

Lemma octal_char_hex c : octal_char c = true → hex_char c = true.
Proof. code_cases. Qed.

Lemma binary_char_hex c : binary_char c = true → hex_char c = true.
Proof. code_cases. Qed.

Lemma decimal_char_hex c : Num.code_in 48 57 c = true → hex_char c = true.
Proof. code_cases. Qed.

Lemma hex_no_ws (s : string) : all_in hex_char s = true → no_ws s = true.
Proof. apply all_in_impl, hex_char_not_ws. Qed.

Lemma decimal_no_ws (s : string) : all_decimal s = true → no_ws s = true.
Proof.
  rewrite all_decimal_all_in. intros H. apply hex_no_ws. revert H.
  apply all_in_impl, decimal_char_hex.
Qed.

Lemma hex_digit_val c : hex_char c = true → is_Some (Num.digit_val 16 c).
Proof. code_cases. Qed.

Lemma octal_digit_val c : octal_char c = true → is_Some (Num.digit_val 8 c).
Proof. code_cases. Qed.

Lemma binary_digit_val c :
  binary_char c = true → is_Some (Num.digit_val 2 c).
Proof. code_cases. Qed.

Lemma decimal_digit_val c :
  Num.code_in 48 57 c = true → is_Some (Num.digit_val 10 c).
Proof. code_cases. Qed.

Lemma digits_go_total base (ok : ascii → bool) a (s : string) :
  (∀ c, ok c = true → is_Some (Num.digit_val base c)) →
  all_in ok s = true → is_Some (Num.digits_go base a s).
Proof.
  intros Hok. revert a. induction s as [|c s IH]; intros a; [by eexists|].
  cbn [all_in Num.digits_go]. intros [Hc Hs]%andb_true_iff.
  destruct (Hok _ Hc) as [d ->]. by apply IH.
Qed.

Lemma digits_total base (ok : ascii → bool) (s : string) :
  (∀ c, ok c = true → is_Some (Num.digit_val base c)) →
  s ≠ "" → all_in ok s = true → is_Some (Num.digits base s).
Proof.
  intros Hok Hne Hs. destruct s as [|c s]; [done|].
  by apply (digits_go_total base ok).
Qed.

Lemma digits_decimal_total (s : string) :
  decimal_digits s → is_Some (Num.digits 10 s).
Proof.
  intros [Hne Hs]. rewrite all_decimal_all_in in Hs.
  by apply (digits_total 10 (Num.code_in 48 57));
    [apply decimal_digit_val|..].
Qed.

Lemma span_digits_app (d rest : string) :
  all_decimal d = true →
  Num.span_digits rest = ("", rest) →
  Num.span_digits (d +:+ rest) = (d, rest).
Proof.
  intros Hd Hrest. induction d as [|c d IH]; [done|].
  cbn [all_decimal] in Hd. apply andb_true_iff in Hd as [Hc Hd].
  rewrite str_app_cons. cbn [Num.span_digits]. by rewrite Hc, (IH Hd).
Qed.

Lemma exponent_part_head (ex : string) :
  exponent_part ex →
  ∃ c r, ex = String c r ∧ (c = "e" ∨ c = "E")%char.
Proof.
  intros (e & sg & ds & -> & He & _).
  destruct He as [->| ->]; rewrite str_app_cons, str_app_nil_l; eauto.
Qed.

Lemma decimal_digits_head (ds : string) :
  decimal_digits ds →
  ∃ c r, ds = String c r ∧ Num.code_in 48 57 c = true.
Proof.
  intros [Hne Hd]. destruct ds as [|c r]; [done|].
  cbn [all_decimal] in Hd. apply andb_true_iff in Hd as [Hc _]. eauto.
Qed.

Lemma exponent_complete (ex : string) :
  ex = "" ∨ exponent_part ex → is_Some (Num.exponent ex).
Proof.
  intros [->|(e & sg & ds & -> & He & Hsg & Hds)]; [by eexists|].
  destruct (digits_decimal_total ds Hds) as [m Hm].
  assert (∀ c, (c = "e" ∨ c = "E")%char →
               is_Some (Num.exponent (String c (sg +:+ ds)))) as Hc.
  { intros c Hc.
    assert (Ascii.eqb c "e" || Ascii.eqb c "E" = true) as Ec
      by (by destruct Hc as [->| ->]).
    cbn [Num.exponent]. rewrite Ec.
    destruct Hsg as [->|[->| ->]].
    - rewrite str_app_nil_l.
      destruct (decimal_digits_head ds Hds) as (g & r & -> & Hg).
      rewrite !(digit_eqb_false g) by done. rewrite Hm. by eexists.
    - rewrite str_app_cons, str_app_nil_l.
      cbn [Ascii.eqb Bool.eqb andb]. rewrite Hm. by eexists.
    - rewrite str_app_cons, str_app_nil_l.
      cbn [Ascii.eqb Bool.eqb andb]. rewrite Hm. by eexists. }
  destruct He as [->| ->]; rewrite str_app_cons, str_app_nil_l;
    apply Hc; auto.
Qed.

Lemma eqb_Infinity_false c (s : string) :
  c ≠ "I"%char → String.eqb (String c s) "Infinity" = false.
Proof.
  intros Hc. cbn [String.eqb]. by destruct (Ascii.eqb_spec c "I").
Qed.

Lemma decimal_char_neq c (d : ascii) :
  Num.code_in 48 57 c = true → Num.code_in 48 57 d = false → c ≠ d.
Proof. intros Hc Hd ->. congruence. Qed.

Lemma unsigned_decimal_complete neg (u : string) :
  unsigned_decimal_literal u → is_Some (Num.unsigned_decimal neg u).
Proof.
  intros [->|(d1 & ex & Hex & Hd1 & Hu)]; [by eexists|].
  assert (Num.span_digits ex = ("", ex)) as Hspan.
  { destruct Hex as [->|(c & r & -> & Hc)%exponent_part_head]; [done|].
    by destruct Hc as [->| ->]. }
  destruct (exponent_complete ex Hex) as [e He].
  unfold Num.unsigned_decimal.
  destruct Hu as [[-> Hne]|(d2 & -> & Hd2 & Hne)].
  - destruct (digits_decimal_total d1 (conj Hne Hd1)) as [m Hm].
    destruct (decimal_digits_head d1 (conj Hne Hd1)) as (c & r & Ed & Hc).
    assert (String.eqb (d1 +:+ ex) "Infinity" = false) as ->.
    { rewrite Ed, str_app_cons. apply eqb_Infinity_false.
      by apply (decimal_char_neq c). }
    rewrite span_digits_app by done.
    destruct Hex as [->|(x & r' & -> & Hx)%exponent_part_head].
    + rewrite Hm. by eexists.
    + assert (Ascii.eqb x "." = false) as -> by (by destruct Hx as [->| ->]).
      rewrite He. cbn [mbind option_bind]. rewrite Hm. by eexists.
  - assert (String.eqb (d1 +:+ "." +:+ d2 +:+ ex) "Infinity" = false) as ->.
    { destruct d1 as [|c r]; [done|].
      cbn [all_decimal] in Hd1. apply andb_true_iff in Hd1 as [Hc _].
      rewrite str_app_cons. apply eqb_Infinity_false.
      by apply (decimal_char_neq c). }
    rewrite (span_digits_app d1) by done.
    rewrite str_app_cons, str_app_nil_l. cbn [Ascii.eqb Bool.eqb andb].
    rewrite span_digits_app by done.
    destruct (String.eqb_spec (d1 +:+ d2) "") as [|_]; [done|].
    rewrite He. cbn [mbind option_bind].
    destruct (digits_go_total 10 (Num.code_in 48 57) 0%N (d1 +:+ d2))
      as [m Hm]; [apply decimal_digit_val| |].
    { by rewrite <-all_decimal_all_in, all_decimal_app, Hd1, Hd2. }
    rewrite Hm. by eexists.
Qed.

Lemma unsigned_decimal_not_NaN neg (s : string) :
  Num.unsigned_decimal neg s ≠ Some NaN.
Proof.
  unfold Num.unsigned_decimal.
  destruct (String.eqb s "Infinity"); [done|].
  destruct (Num.span_digits s) as [d1 [|c r1]].
  - by destruct (Num.digits 10 d1).
  - destruct (Ascii.eqb c ".").
    + destruct (Num.span_digits r1) as [d2 r2].
      destruct (String.eqb (d1 +:+ d2) ""); [done|].
      destruct (Num.exponent r2); [|done]. cbn [mbind option_bind].
      by destruct (Num.digits_go 10 0 (d1 +:+ d2)).
    + destruct (Num.exponent (String c r1)); [|done].
      cbn [mbind option_bind]. by destruct (Num.digits 10 d1).
Qed.

Lemma decimal_not_NaN (s : string) : Num.decimal s ≠ Some NaN.
Proof.
  destruct s as [|c s]; [done|]. cbn [Num.decimal].
  destruct (Ascii.eqb c "-"); [apply unsigned_decimal_not_NaN|].
  destruct (Ascii.eqb c "+"); apply unsigned_decimal_not_NaN.
Qed.

Lemma non_decimal_not_NaN (s : string) : Num.non_decimal s ≠ Some NaN.
Proof.
  destruct s as [|z [|x ds]]; [done..|]. cbn [Num.non_decimal].
  destruct (Ascii.eqb z "0"); [|done].
  destruct (if Ascii.eqb x "x" || Ascii.eqb x "X" then Some 16%N
            else if Ascii.eqb x "o" || Ascii.eqb x "O" then Some 8%N
            else if Ascii.eqb x "b" || Ascii.eqb x "B" then Some 2%N
            else None) as [base|]; [|done].
  cbn [mbind option_bind]. by destruct (Num.digits base ds).
Qed.

Lemma unsigned_literal_head (u : string) :
  unsigned_decimal_literal u →
  ∃ c r, u = String c r ∧ Ascii.eqb c "-" = false ∧ Ascii.eqb c "+" = false
         ∧ negb (Num.is_ws c) = true.
Proof.
  assert (∀ c, Num.code_in 48 57 c = true →
               Ascii.eqb c "-" = false ∧ Ascii.eqb c "+" = false
               ∧ negb (Num.is_ws c) = true) as Hdigit.
  { intros c Hc. rewrite !(digit_eqb_false c) by done.
    by rewrite (digit_is_not_ws c). }
  intros [->|(d1 & ex & Hex & Hd1 & Hu)]; [by eexists _, _|].
  destruct Hu as [[-> Hne]|(d2 & -> & Hd2 & Hne)].
  - destruct (decimal_digits_head d1 (conj Hne Hd1)) as (c & r & -> & Hc).
    rewrite str_app_cons. eexists _, _. split; [done|]. by apply Hdigit.
  - destruct d1 as [|c r]; [by eexists _, _|].
    cbn [all_decimal] in Hd1. apply andb_true_iff in Hd1 as [Hc _].
    rewrite str_app_cons. eexists _, _. split; [done|]. by apply Hdigit.
Qed.

Lemma decimal_complete (sg u : string) :
  sign_opt sg → unsigned_decimal_literal u →
  is_Some (Num.decimal (sg +:+ u)).
Proof.
  intros [->|[->| ->]] Hu.
  - rewrite str_app_nil_l.
    destruct (unsigned_literal_head u Hu) as (c & r & -> & E1 & E2 & _).
    cbn [Num.decimal]. rewrite E1, E2.
    by apply unsigned_decimal_complete.
  - by apply (unsigned_decimal_complete false).
  - by apply (unsigned_decimal_complete true).
Qed.

Lemma exponent_no_ws (ex : string) :
  ex = "" ∨ exponent_part ex → no_ws ex = true.
Proof.
  intros [->|(e & sg & ds & -> & He & Hsg & _ & Hds)]; [done|].
  rewrite !no_ws_app, (decimal_no_ws ds Hds).
  by destruct He as [->| ->], Hsg as [->|[->| ->]].
Qed.

Lemma unsigned_literal_no_ws (u : string) :
  unsigned_decimal_literal u → no_ws u = true.
Proof.
  intros [->|(d1 & ex & Hex & Hd1 & Hu)]; [done|].
  destruct Hu as [[-> Hne]|(d2 & -> & Hd2 & Hne)].
  - by rewrite no_ws_app, (decimal_no_ws d1), (exponent_no_ws ex).
  - by rewrite !no_ws_app, (decimal_no_ws d1), (decimal_no_ws d2),
      (exponent_no_ws ex).
Qed.

Lemma non_decimal_complete (s : string) :
  non_decimal_literal s →
  no_ws s = true ∧ s ≠ "" ∧ is_Some (Num.non_decimal s).
Proof.
  intros (ds & Hne & [[Hs H]|[[Hs H]|[Hs H]]]).
  - destruct (digits_total 16 hex_char ds hex_digit_val Hne H) as [m Hm].
    assert (no_ws ds = true) as Hw by (by apply hex_no_ws).
    destruct Hs as [->| ->]; rewrite !str_app_cons, str_app_nil_l;
      (split_and!; [unfold no_ws in *; cbn [all_in]; by rewrite Hw|done|]);
      cbn [Num.non_decimal Ascii.eqb Bool.eqb andb orb mbind option_bind];
      rewrite Hm; by eexists.
  - destruct (digits_total 8 octal_char ds octal_digit_val Hne H) as [m Hm].
    assert (no_ws ds = true) as Hw
      by (apply hex_no_ws; revert H; apply all_in_impl, octal_char_hex).
    destruct Hs as [->| ->]; rewrite !str_app_cons, str_app_nil_l;
      (split_and!; [unfold no_ws in *; cbn [all_in]; by rewrite Hw|done|]);
      cbn [Num.non_decimal Ascii.eqb Bool.eqb andb orb mbind option_bind];
      rewrite Hm; by eexists.
  - destruct (digits_total 2 binary_char ds binary_digit_val Hne H) as [m Hm].
    assert (no_ws ds = true) as Hw
      by (apply hex_no_ws; revert H; apply all_in_impl, binary_char_hex).
    destruct Hs as [->| ->]; rewrite !str_app_cons, str_app_nil_l;
      (split_and!; [unfold no_ws in *; cbn [all_in]; by rewrite Hw|done|]);
      cbn [Num.non_decimal Ascii.eqb Bool.eqb andb orb mbind option_bind];
      rewrite Hm; by eexists.
Qed.

(** [Number] reads a numeric literal as a number, and only a numeric
    literal. *)
Lemma StringToNumber_literal (s : string) :
  numeric_literal s ↔ Num.StringToNumber s ≠ NaN.
Proof.
  split; [|apply StringToNumber_sound].
  intros (a & body & b & -> & Ha & Hb & Hbody).
  rewrite StringToNumber_blanks by done. unfold Num.StringToNumber.
  destruct Hbody as [->|[Hn|(sg & u & -> & Hsg & Hu)]]; [done| |].
  - destruct (non_decimal_complete body Hn) as (Hw & Hne & [n E]).
    rewrite trim_no_ws by done.
    destruct (String.eqb_spec body "") as [|_]; [done|]. rewrite E.
    intros ->. by apply (non_decimal_not_NaN body).
  - assert (no_ws (sg +:+ u) = true) as Hw.
    { rewrite no_ws_app, (unsigned_literal_no_ws u) by done.
      by destruct Hsg as [->|[->| ->]]. }
    rewrite trim_no_ws by done.
    destruct (String.eqb_spec (sg +:+ u) "") as [|_]; [done|].
    destruct (Num.non_decimal (sg +:+ u)) as [n|] eqn:E.
    { intros ->. by apply (non_decimal_not_NaN (sg +:+ u)). }
    destruct (decimal_complete sg u Hsg Hu) as [n En]. rewrite En.
    change (default NaN (Some n)) with n.
    intros ->. by apply (decimal_not_NaN (sg +:+ u)).
Qed.

End LiteralFacts.

(** ** Numbers that are not literals *)

Section MalformedNumbers.

Variable toS : jsnum → string.
Variable rng : nat → N.

(** [Number] of a value that is not a numeric literal is NaN, and the
    bind holds it. *)
Lemma bind_of_not_numeric p v :
  datatype p = "number" → not_numeric v →
  bind_of toS p v = {| type := DB_NUMBER; val := VNum NaN |}.
Proof.
  intros Hty Hv. unfold bind_of, dataType, coerce, is_number.
  rewrite Hty. cbn [String.eqb Ascii.eqb Bool.eqb ToNumber].
  destruct v as [s|n]; cbn [not_numeric] in Hv; cbn [ToNumber].
  - by rewrite StringToNumber_not_literal.
  - by rewrite Hv.
Qed.

(** Parameters that do not expand and bear other names leave a bind as
    it is. *)
Lemma compile_later_plain sql before p after k :
  Forall (λ q, parseInStatement q = false ∧ name q ≠ k) after →
  acc (compile toS rng sql (before ++ p :: after)) !! k
  = acc (bind_step toS rng (foldl (bind_step toS rng) (start sql) before) p)
      !! k.
Proof.
  intros Hafter. unfold compile. rewrite foldl_app. cbn [foldl].
  rewrite foldl_bind_step_plain.
  2:{ eapply Forall_impl; [exact Hafter|]. by intros q [? _]. }
  cbn [acc]. apply plain_binds_lookup_notin.
  intros (q & Hk & Hq)%list_elem_of_fmap.
  rewrite Forall_forall in Hafter. by destruct (Hafter q Hq).
Qed.

(** C7, amended.  For a parameter declared NUMBER nothing is checked.
    Whenever the host supplies a connection and the parameters, the
    statement is sent to the driver, once, and the node returns what the
    driver makes of it.  A parameter that does not expand, of a name
    other than [__proto__], whose value is not a numeric literal, is
    sent bound to NaN, typed NUMBER; of an expanding parameter every
    segment that is not a numeric literal is sent bound to NaN, typed
    NUMBER, under its synthetic name.  The parameters after it in the
    list do not expand and bear other names, so that they leave the bind
    as it is; the synthetic names are pairwise distinct. *)
Theorem non_numeric_number_binds_NaN
    (h : Host) (credentials : Credentials) (c : Connection) (sql : string)
    (before after : list Param) (p : Param)
    (includeMetadata : bool) (rowLimit : Z) :
  datatype p = "number" →
  getCredentials h = Ok credentials →
  getConnection h credentials = Ok (Some c) →
  param_query h = Ok sql →
  param_params h = Ok (Some (before ++ p :: after)) →
  param_includeMetadata h = Ok includeMetadata →
  param_rowLimit h = Ok rowLimit →
  let entry := {| type := DB_NUMBER; val := VNum NaN |} in
  let opts := execute_options includeMetadata in
  ∃ sent binds,
    Eff.run (execute toS rng h)
    = (EvExecute sent binds opts :: close_log c,
       match conn_execute c sent binds opts with
       | Ok result => Ok [project result includeMetadata []]
       | Throw error => Throw (NodeOperationError error)
       end)
    ∧ (parseInStatement p = false →
       not_numeric (value p) →
       name p ≠ "__proto__" →
       Forall (λ q, parseInStatement q = false ∧ name q ≠ name p) after →
       binds !! name p = Some entry)
    ∧ (parseInStatement p = true →
       let vals := Str.split "," (ToString toS (value p)) in
       let names := synthetic_names rng (name p) (total_draws toS before)
                      (length vals) in
       NoDup names →
       ∀ i k v,
         names !! i = Some k → vals !! i = Some v →
         ¬ numeric_literal v →
         Forall (λ q, parseInStatement q = false ∧ name q ≠ k) after →
         binds !! k = Some entry).
Proof.
  intros Hty H1 H2 H3 H4 H5 H6 entry opts.
  pose proof (execute_run toS rng h credentials c sql
                (Some (before ++ p :: after)) includeMetadata rowLimit
                H1 H2 H3 H4 H5 H6) as Hrun.
  cbn [default] in Hrun. cbv zeta in Hrun.
  change (default [] (Some (before ++ p :: after)))
    with (before ++ p :: after) in Hrun.
  set (st := compile toS rng sql (before ++ p :: after)) in *.
  exists (applyLimit toS (query st) rowLimit), (acc st).
  split; [exact Hrun|]. subst st. split.
  - intros Hp Hv Hproto Hafter.
    rewrite compile_later_plain by done.
    rewrite bind_step_plain by done. cbn [acc].
    rewrite obj_set_ne, lookup_insert_eq by done.
    by rewrite bind_of_not_numeric.
  - intros Hp vals names Hnd i k v Hk Hvi Hv Hafter.
    rewrite compile_later_plain by done.
    rewrite (bind_step_expand toS rng _ p Hp). cbn [acc].
    destruct (foldl_bind_step_invariant toS rng before (start sql))
      as (Hd & _ & _).
    cbn [draws start] in Hd. rewrite Hd. cbn [Nat.add]. fold vals names.
    assert (length names = length vals) as Hlen
      by apply length_synthetic_names.
    rewrite (insert_all_lookup _ _ _ k v).
    + by rewrite (bind_of_not_numeric p (VStr v)).
    + by rewrite fst_zip by lia.
    + apply list_elem_of_lookup. exists i. apply lookup_zip_with_Some; eauto.
Qed.

End MalformedNumbers.

Lemma non_numeric_number_binds_NaN_witness :
  let sql := "SELECT :n AS n FROM dual WHERE k = :category" in
  let h := sample_host (accepting None) sql [nan_param; category_param]
             false 0 in
  let sql' := "SELECT id FROM t WHERE id IN :ids" in
  let h' := sample_host (rejecting None) sql' [mixed_param] false 0 in
  let names := synthetic_names demo_rng "ids" 0 3 in
  (datatype nan_param = "number"
   ∧ getCredentials h = Ok sample_credentials
   ∧ getConnection h sample_credentials = Ok (Some (accepting None))
   ∧ param_query h = Ok sql
   ∧ param_params h = Ok (Some ([] ++ nan_param :: [category_param]))
   ∧ param_includeMetadata h = Ok false
   ∧ param_rowLimit h = Ok 0%Z
   ∧ parseInStatement nan_param = false
   ∧ not_numeric (value nan_param)
   ∧ name nan_param ≠ "__proto__"
   ∧ Forall (λ q, parseInStatement q = false ∧ name q ≠ name nan_param)
       [category_param])
  ∧ (datatype mixed_param = "number"
     ∧ param_params h' = Ok (Some ([] ++ mixed_param :: []))
     ∧ parseInStatement mixed_param = true
     ∧ NoDup names
     ∧ ¬ numeric_literal "x")
  ∧ (∃ sent binds,
       Eff.run (execute sample_toString demo_rng h)
       = (EvExecute sent binds (execute_options false)
            :: close_log (accepting None),
          Ok [[ {| json := RowObject [("N", SNull)] |} ]])
       ∧ binds !! "n" = Some {| type := DB_NUMBER; val := VNum NaN |})
  ∧ (∃ sent binds,
       Eff.run (execute sample_toString demo_rng h')
       = (EvExecute sent binds (execute_options false)
            :: close_log (rejecting None),
          Throw (NodeOperationError (Thrown "ORA-00942")))
       ∧ binds !! "ids123e4567_e89b_42d3_a456_426614174001"
         = Some {| type := DB_NUMBER; val := VNum NaN |}).
Proof.
  intros sql h sql' h' names.
  assert (not_numeric (value nan_param)) as Hv.
  { intros Hlit%StringToNumber_literal. by apply Hlit. }
  assert (name nan_param ≠ "__proto__") as Hproto by (by intros [=]).
  assert (Forall (λ q, parseInStatement q = false ∧ name q ≠ name nan_param)
            [category_param]) as Hafter.
  { constructor; [|constructor]. split; [done|]. by intros [=]. }
  assert (NoDup names) as Hnd by by_compute.
  assert (¬ numeric_literal "x") as Hx.
  { intros Hlit%StringToNumber_literal. by apply Hlit. }
  split; [by repeat split|]. split; [by repeat split|]. split.
  - destruct (non_numeric_number_binds_NaN sample_toString demo_rng h
                sample_credentials (accepting None) sql [] [category_param]
                nan_param false 0 eq_refl eq_refl eq_refl eq_refl eq_refl
                eq_refl eq_refl) as (sent & binds & Hrun & Hplain & _).
    exists sent, binds. split; [exact Hrun|].
    exact (Hplain eq_refl Hv Hproto Hafter).
  - destruct (non_numeric_number_binds_NaN sample_toString demo_rng h'
                sample_credentials (rejecting None) sql' [] []
                mixed_param false 0 eq_refl eq_refl eq_refl eq_refl eq_refl
                eq_refl eq_refl) as (sent & binds & Hrun & _ & Hexp).
    exists sent, binds. split; [exact Hrun|].
    exact (Hexp eq_refl Hnd 1 _ "x" eq_refl eq_refl Hx (Forall_nil_2 _)).
Defined.
